(** * PyBaMM [BaseModel]: equation registry, submodel merge and
      well-posedness check

    Shallow embedding of [pybamm/models/base_model.py].

    Python objects are passed by reference.  The setters of [BaseModel] keep
    the dictionary they are given, after rewriting it in place, and
    [update] rewrites the dictionaries of the host in place.  The embedding
    therefore has an explicit store of objects, addressed by references,
    and every method is a function from stores to stores that either
    returns or raises.

    The embedding is of the default interpreter mode, in which [assert]
    statements are executed ([__debug__] is true). *)

From stdpp Require Import gmap strings list fin_maps.

Local Open Scope string_scope.
Local Open Scope list_scope.
Local Open Scope stdpp_scope.

(** ** The expression tree, an external collaborator *)

(** Modelled from the spec: the expression tree ([pybamm.Symbol],
    [pybamm.Scalar]) is not among the sources.  [base_model.py] uses an
    expression only through the members below: as a dictionary key (so
    expressions are hashable and have an equality, [EqDecision] and
    [Countable]), through [id], [domain], [pre_order()],
    [has_spatial_derivatives()], through [str] when a message is formatted,
    and through the constructor [pybamm.Scalar] for a bare number.  The
    spec describes a lifted number as an expression with an empty domain
    whose numeric value is the number ([Scalar_domain], [Scalar_value]).
    Nothing is assumed on how [id] relates to the equality of keys. *)
Class ExpressionTree := {
  Expression : Type;
  number : Type;
  Expression_eq_dec :: EqDecision Expression;
  Expression_countable :: Countable Expression;
  id : Expression → Z;
  domain : Expression → list string;
  pre_order : Expression → list Expression;
  has_spatial_derivatives : Expression → bool;
  str : Expression → string;
  Scalar : number → Expression;
  value : Expression → option number;
  Scalar_domain : ∀ n, domain (Scalar n) = [];
  Scalar_value : ∀ n, value (Scalar n) = Some n
}.

Section Model.
Context `{ET : ExpressionTree}.

(** What a caller may put as the value of an equation dictionary: a bare
    number ([numbers.Number]) or an expression. *)
Inductive eqn_value :=
| Num (n : number)
| Expr (e : Expression).

(** Exceptions.  [pybamm.DomainError] is raised by a [raise] statement.
    [pybamm.ModelError] is only ever built as the second operand of an
    [assert] statement: when the asserted condition is false Python raises
    [AssertionError] with that operand as its argument.  [AttributeError]
    is what a method call on a bare number gives, [KeyError] what
    subscripting a dictionary with an absent key gives. *)
Inductive exn :=
| DomainError (msg : string)
| ModelError (msg : string)
| AssertionError (arg : exn)
| AttributeError (attr : string)
| KeyError.

Inductive outcome (A : Type) :=
| Return (a : A)
| Raise (e : exn).
Global Arguments Return {A} a.
Global Arguments Raise {A} e.

(** ** Objects and the store *)

Definition addr := nat.

(** A store maps every reference to the current contents of its object. *)
Definition store (A : Type) := addr → A.

Definition store_set {A} (s : store A) (a : addr) (x : A) : store A :=
  λ b, if decide (b = a) then x else s b.

(** The attributes of a [BaseModel] instance set up by [__init__] (lines
    39-46); each of the first six is a reference to a dictionary or list.
    The default parameter values, discretisation and solver (lines 49-54)
    are not used by any method below and are left out. *)
Record BaseModel := mkBaseModel {
  _rhs : addr;
  _algebraic : addr;
  _initial_conditions : addr;
  _initial_conditions_ydot : addr;
  _boundary_conditions : addr;
  _variables : addr;
  _concatenated_rhs : option Expression;
  _concatenated_initial_conditions : option Expression
}.

(** Objects are grouped by the type of what they hold: model instances,
    dictionaries from expressions to equations ([rhs],
    [initial_conditions], [initial_conditions_ydot]), dictionaries from a
    side label to a value (the inner dictionaries of
    [boundary_conditions]), dictionaries from expressions to references of
    inner dictionaries ([boundary_conditions]), dictionaries from names to
    expressions ([variables]) and lists of expressions ([algebraic]). *)
Record heap := mkHeap {
  models : store BaseModel;
  eqn_dicts : store (gmap Expression eqn_value);
  side_dicts : store (gmap string eqn_value);
  bc_dicts : store (gmap Expression addr);
  var_dicts : store (gmap string Expression);
  alg_lists : store (list Expression)
}.

Definition set_model (σ : heap) (a : addr) (m : BaseModel) : heap :=
  mkHeap (store_set (models σ) a m) (eqn_dicts σ) (side_dicts σ)
         (bc_dicts σ) (var_dicts σ) (alg_lists σ).
Definition set_eqn_dict (σ : heap) (a : addr) (d : gmap Expression eqn_value) : heap :=
  mkHeap (models σ) (store_set (eqn_dicts σ) a d) (side_dicts σ)
         (bc_dicts σ) (var_dicts σ) (alg_lists σ).
Definition set_side_dict (σ : heap) (a : addr) (d : gmap string eqn_value) : heap :=
  mkHeap (models σ) (eqn_dicts σ) (store_set (side_dicts σ) a d)
         (bc_dicts σ) (var_dicts σ) (alg_lists σ).
Definition set_bc_dict (σ : heap) (a : addr) (d : gmap Expression addr) : heap :=
  mkHeap (models σ) (eqn_dicts σ) (side_dicts σ)
         (store_set (bc_dicts σ) a d) (var_dicts σ) (alg_lists σ).
Definition set_var_dict (σ : heap) (a : addr) (d : gmap string Expression) : heap :=
  mkHeap (models σ) (eqn_dicts σ) (side_dicts σ)
         (bc_dicts σ) (store_set (var_dicts σ) a d) (alg_lists σ).

(** ** Commands: a state and exception monad *)

Definition M (A : Type) := heap → heap * outcome A.

Definition ret {A} (a : A) : M A := λ σ, (σ, Return a).
Definition raise {A} (e : exn) : M A := λ σ, (σ, Raise e).
Definition bind {A B} (c : M A) (k : A → M B) : M B :=
  λ σ, match c σ with
       | (σ', Return a) => k a σ'
       | (σ', Raise e) => (σ', Raise e)
       end.
Definition gets {A} (f : heap → A) : M A := λ σ, (σ, Return (f σ)).
Definition modify (f : heap → heap) : M unit := λ σ, (f σ, Return tt).

Notation "'let!' x ':=' c 'in' k" := (bind c (λ x, k))
  (at level 10, x pattern, c at level 100, k at level 200, only parsing).
Notation "c ';;' k" := (bind c (λ _, k))
  (at level 100, k at level 200, only parsing).

(** [for x in l: body] *)
Fixpoint for_each {A} (l : list A) (body : A → M unit) : M unit :=
  match l with
  | [] => ret tt
  | x :: l' => body x ;; for_each l' body
  end.

(** [assert cond, arg] *)
Definition assert_ (cond : bool) (arg : exn) : M unit :=
  if cond then ret tt else raise (AssertionError arg).

(** ** Dictionaries *)

(** [d.keys()] and [d.items()] as the sequences a loop runs over.  A
    dictionary is a finite map: a loop visits its entries in the order of
    [map_to_list], where Python visits them in the order of insertion.  The
    order only decides which of several failing entries a check reports. *)
Definition keys {K V} `{Countable K} (d : gmap K V) : list K := (map_to_list d).*1.
Definition items {K V} `{Countable K} (d : gmap K V) : list (K * V) := map_to_list d.

(** [d.update(other)]: every entry of [other] is written into [d]; on a
    common key the value of [other] wins. *)
Definition dict_update {K V} `{Countable K} (d other : gmap K V) : gmap K V := other ∪ d.

(** ** The setters *)

(** Writing an attribute of [self]. *)
Definition with_rhs (m : BaseModel) (a : addr) : BaseModel :=
  mkBaseModel a (_algebraic m) (_initial_conditions m)
    (_initial_conditions_ydot m) (_boundary_conditions m) (_variables m)
    (_concatenated_rhs m) (_concatenated_initial_conditions m).
Definition with_algebraic (m : BaseModel) (a : addr) : BaseModel :=
  mkBaseModel (_rhs m) a (_initial_conditions m)
    (_initial_conditions_ydot m) (_boundary_conditions m) (_variables m)
    (_concatenated_rhs m) (_concatenated_initial_conditions m).
Definition with_initial_conditions (m : BaseModel) (a : addr) : BaseModel :=
  mkBaseModel (_rhs m) (_algebraic m) a
    (_initial_conditions_ydot m) (_boundary_conditions m) (_variables m)
    (_concatenated_rhs m) (_concatenated_initial_conditions m).
Definition with_initial_conditions_ydot (m : BaseModel) (a : addr) : BaseModel :=
  mkBaseModel (_rhs m) (_algebraic m) (_initial_conditions m)
    a (_boundary_conditions m) (_variables m)
    (_concatenated_rhs m) (_concatenated_initial_conditions m).
Definition with_boundary_conditions (m : BaseModel) (a : addr) : BaseModel :=
  mkBaseModel (_rhs m) (_algebraic m) (_initial_conditions m)
    (_initial_conditions_ydot m) a (_variables m)
    (_concatenated_rhs m) (_concatenated_initial_conditions m).
Definition with_variables (m : BaseModel) (a : addr) : BaseModel :=
  mkBaseModel (_rhs m) (_algebraic m) (_initial_conditions m)
    (_initial_conditions_ydot m) (_boundary_conditions m) a
    (_concatenated_rhs m) (_concatenated_initial_conditions m).

(** [variable.domain == equation.domain or equation.domain == []], one
    element of the list comprehension of [_set_dict].  A bare number has
    no attribute [domain]. *)
Definition domain_consistent (variable : Expression) (equation : eqn_value) : M bool :=
  match equation with
  | Expr e => ret (bool_decide (domain variable = domain e)
                   || bool_decide (domain e = []))
  | Num _ => raise (AttributeError "domain")
  end.

(** [[f(x) for x in l]] *)
Fixpoint comprehension {A B} (f : A → M B) (l : list A) : M (list B) :=
  match l with
  | [] => ret []
  | x :: l' => let! y := f x in
               let! ys := comprehension f l' in
               ret (y :: ys)
  end.

Definition DomainError_msg (name : string) : string :=
  "variable and equation in " +:+ name +:+ " must have the same domain".

(** [_set_dict(self, dict, name)], lines 56-76.  The first loop writes
    into the dictionary object it was given; the object itself is what is
    returned. *)
Definition _set_dict (dict : addr) (name : string) : M addr :=
  let! its := gets (λ σ, items (eqn_dicts σ dict)) in
  for_each its (λ '(var, eqn),
    match eqn with
    | Num n =>
        modify (λ σ, set_eqn_dict σ dict
                       (<[var := Expr (Scalar n)]> (eqn_dicts σ dict)))
    | Expr _ => ret tt
    end) ;;
  let! its := gets (λ σ, items (eqn_dicts σ dict)) in
  let! oks := comprehension (λ '(variable, equation),
                               domain_consistent variable equation) its in
  if negb (forallb (λ b : bool, b) oks)
  then raise (DomainError (DomainError_msg name))
  else ret dict.

(** The property setters, lines 82-134.  [self] is a reference to the
    model instance. *)
Definition rhs_setter (self : addr) (rhs : addr) : M unit :=
  let! d := _set_dict rhs "rhs" in
  modify (λ σ, set_model σ self (with_rhs (models σ self) d)).

Definition algebraic_setter (self : addr) (algebraic : addr) : M unit :=
  modify (λ σ, set_model σ self (with_algebraic (models σ self) algebraic)).

Definition initial_conditions_setter (self : addr) (initial_conditions : addr) : M unit :=
  let! d := _set_dict initial_conditions "initial_conditions" in
  modify (λ σ, set_model σ self (with_initial_conditions (models σ self) d)).

Definition initial_conditions_ydot_setter (self : addr) (initial_conditions : addr) : M unit :=
  let! d := _set_dict initial_conditions "initial_conditions_ydot" in
  modify (λ σ, set_model σ self (with_initial_conditions_ydot (models σ self) d)).

(** [boundary_conditions[var]], a reference to an inner dictionary. *)
Definition subscript_bc (boundary_conditions : addr) (var : Expression) : M addr :=
  λ σ, match bc_dicts σ boundary_conditions !! var with
       | Some bcs => (σ, Return bcs)
       | None => (σ, Raise KeyError)
       end.

Definition boundary_conditions_setter (self : addr) (boundary_conditions : addr) : M unit :=
  let! outer := gets (λ σ, items (bc_dicts σ boundary_conditions)) in
  for_each outer (λ '(var, bcs),
    let! inner := gets (λ σ, items (side_dicts σ bcs)) in
    for_each inner (λ '(side, eqn),
      match eqn with
      | Num n =>
          let! target := subscript_bc boundary_conditions var in
          modify (λ σ, set_side_dict σ target
                         (<[side := Expr (Scalar n)]> (side_dicts σ target)))
      | Expr _ => ret tt
      end)) ;;
  modify (λ σ, set_model σ self
                 (with_boundary_conditions (models σ self) boundary_conditions)).

Definition variables_setter (self : addr) (variables : addr) : M unit :=
  modify (λ σ, set_model σ self (with_variables (models σ self) variables)).

(** The property getters, as reads of the store: the dictionary a
    getter returns, as it is in [σ]. *)
Definition rhs (σ : heap) (m : addr) : gmap Expression eqn_value :=
  eqn_dicts σ (_rhs (models σ m)).
Definition algebraic (σ : heap) (m : addr) : list Expression :=
  alg_lists σ (_algebraic (models σ m)).
Definition initial_conditions (σ : heap) (m : addr) : gmap Expression eqn_value :=
  eqn_dicts σ (_initial_conditions (models σ m)).
Definition initial_conditions_ydot (σ : heap) (m : addr) : gmap Expression eqn_value :=
  eqn_dicts σ (_initial_conditions_ydot (models σ m)).
Definition boundary_conditions (σ : heap) (m : addr) : gmap Expression addr :=
  bc_dicts σ (_boundary_conditions (models σ m)).
Definition variables (σ : heap) (m : addr) : gmap string Expression :=
  var_dicts σ (_variables (models σ m)).

(** [__getitem__], lines 152-153: [self.rhs[key]]. *)
Definition __getitem__ (self : addr) (key : Expression) : M eqn_value :=
  λ σ, match rhs σ self !! key with
       | Some eqn => (σ, Return eqn)
       | None => (σ, Raise KeyError)
       end.

(** ** [update], lines 155-175 *)

(** [len(vars) == len(set(vars))] *)
Definition all_distinct (vars : list Z) : bool :=
  Nat.eqb (length vars) (size (list_to_set vars : gset Z)).

(** The body of the loop over the submodels. *)
Definition update_one (self submodel : addr) : M unit :=
  let! vars := gets (λ σ, (id <$> keys (rhs σ submodel))
                          ++ (id <$> keys (rhs σ self))) in
  assert_ (all_distinct vars) (ModelError "duplicate variables") ;;
  modify (λ σ, set_eqn_dict σ (_rhs (models σ self))
                 (dict_update (rhs σ self) (rhs σ submodel))) ;;
  modify (λ σ, set_eqn_dict σ (_initial_conditions (models σ self))
                 (dict_update (initial_conditions σ self)
                              (initial_conditions σ submodel))) ;;
  modify (λ σ, set_bc_dict σ (_boundary_conditions (models σ self))
                 (dict_update (boundary_conditions σ self)
                              (boundary_conditions σ submodel))) ;;
  modify (λ σ, set_var_dict σ (_variables (models σ self))
                 (dict_update (variables σ self) (variables σ submodel))).

Definition update (self : addr) (submodels : list addr) : M unit :=
  for_each submodels (update_one self).

(** ** [check_well_posedness], lines 177-208 *)

Definition nl : string := String (Ascii.ascii_of_nat 10) EmptyString.
Definition indent : string := "                    ".

Definition no_initial_condition_msg (var : Expression) : string :=
  "no initial condition given for variable '" +:+ str var +:+ "'".

Definition no_boundary_condition_msg (var eqn : Expression) : string :=
  nl +:+ indent +:+ "no boundary condition given for variable '" +:+ str var
     +:+ "'" +:+ nl +:+ indent +:+ "with equation '" +:+ str eqn +:+ "'"
     +:+ nl +:+ indent.

(** The condition asserted in the second loop: [var] occurs, by [id], in
    the traversal of some key of the boundary conditions. *)
Definition in_some_bc_key (var : Expression) (bc_keys : list Expression) : bool :=
  existsb (λ key, existsb (λ symbol, bool_decide (id var = id symbol))
                          (pre_order key)) bc_keys.

Definition check_initial_condition (self : addr) (var : Expression) : M unit :=
  let! ic_keys := gets (λ σ, keys (initial_conditions σ self)) in
  assert_ (bool_decide (var ∈ ic_keys))
          (ModelError (no_initial_condition_msg var)).

Definition check_boundary_condition (self : addr)
    (item : Expression * eqn_value) : M unit :=
  let '(var, eqn) := item in
  match eqn with
  | Num _ => raise (AttributeError "has_spatial_derivatives")
  | Expr e =>
      if has_spatial_derivatives e then
        let! bc_keys := gets (λ σ, keys (boundary_conditions σ self)) in
        assert_ (in_some_bc_key var bc_keys)
                (ModelError (no_boundary_condition_msg var e))
      else ret tt
  end.

Definition check_initial_conditions (self : addr) : M unit :=
  let! rhs_keys := gets (λ σ, keys (rhs σ self)) in
  for_each rhs_keys (check_initial_condition self).

Definition check_boundary_conditions (self : addr) : M unit :=
  let! rhs_items := gets (λ σ, items (rhs σ self)) in
  for_each rhs_items (check_boundary_condition self).

Definition check_well_posedness (self : addr) : M unit :=
  check_initial_conditions self ;;
  check_boundary_conditions self.

End Model.

(** ** Notions used to state the properties *)

Section Notions.
Context `{ET : ExpressionTree}.

(** What the first loop of [_set_dict] leaves in place of a value. *)
Definition lift_value (eqn : eqn_value) : eqn_value :=
  match eqn with
  | Num n => Expr (Scalar n)
  | Expr e => Expr e
  end.

Definition lifted {K} `{Countable K} (d : gmap K eqn_value) : gmap K eqn_value :=
  lift_value <$> d.

(** Invariant I1 is violated by a mapping: some pair has a variable and an
    equation with different domains, the domain of the equation not being
    empty. *)
Definition I1_violated (d : gmap Expression eqn_value) : Prop :=
  ∃ variable equation,
    d !! variable = Some (Expr equation)
    ∧ domain variable ≠ domain equation ∧ domain equation ≠ [].

(** A mapping holds expressions only, no bare number. *)
Definition all_expr {K} `{Countable K} (d : gmap K eqn_value) : Prop :=
  ∀ k x, d !! k = Some x → ∃ e, x = Expr e.

(** The same, as a test that can be run. *)
Definition all_exprb {K} `{Countable K} (d : gmap K eqn_value) : bool :=
  forallb (λ item, match item.2 with Expr _ => true | Num _ => false end)
          (map_to_list d).

(** The three registries that go through [_set_dict]. *)
Inductive eqn_registry := Rhs | InitialConditions | InitialConditionsYdot.

Definition registry_name (r : eqn_registry) : string :=
  match r with
  | Rhs => "rhs"
  | InitialConditions => "initial_conditions"
  | InitialConditionsYdot => "initial_conditions_ydot"
  end.

Definition registry_setter (r : eqn_registry) : addr → addr → M unit :=
  match r with
  | Rhs => rhs_setter
  | InitialConditions => initial_conditions_setter
  | InitialConditionsYdot => initial_conditions_ydot_setter
  end.

(** The attribute a registry is stored in. *)
Definition registry_attr (r : eqn_registry) : BaseModel → addr :=
  match r with
  | Rhs => _rhs
  | InitialConditions => _initial_conditions
  | InitialConditionsYdot => _initial_conditions_ydot
  end.

(** Writing the attribute of a registry. *)
Definition registry_with (r : eqn_registry) : BaseModel → addr → BaseModel :=
  match r with
  | Rhs => with_rhs
  | InitialConditions => with_initial_conditions
  | InitialConditionsYdot => with_initial_conditions_ydot
  end.

(** The three equation registries of a model hold expressions only, as
    the data model has it and as every successful setter call leaves
    them. *)
Definition registries_typed (σ : heap) (m : addr) : Prop :=
  ∀ r, all_expr (eqn_dicts σ (registry_attr r (models σ m))).

(** The [id]s of the [rhs] keys of a model, in the order [update]
    collects them. *)
Definition rhs_ids (σ : heap) (m : addr) : list Z := id <$> keys (rhs σ m).

(** The variable [var], with equation [eqn], has no boundary condition: the
    equation has spatial derivatives and no key of [boundary_conditions]
    has, in its traversal, an expression with the [id] of [var]. *)
Definition lacks_boundary_condition (σ : heap) (m : addr)
    (var eqn : Expression) : Prop :=
  has_spatial_derivatives eqn = true
  ∧ ∀ key symbol, is_Some (boundary_conditions σ m !! key) →
      symbol ∈ pre_order key → id symbol ≠ id var.

(** The exception is an instance of [pybamm.ModelError]. *)
Definition is_ModelError (e : exn) : Prop := ∃ msg, e = ModelError msg.


(** One step of a loop that lifts the numbers of a dictionary, on the
    dictionary alone. *)
Definition lift_step {K} `{Countable K} (d : gmap K eqn_value)
    (item : K * eqn_value) : gmap K eqn_value :=
  match item.2 with
  | Num n => <[item.1 := Expr (Scalar n)]> d
  | Expr _ => d
  end.

(** [σ'] is [σ] but for the equation dictionary at [a], which holds [d]. *)
Definition only_eqn_dict_changed (σ σ' : heap) (a : addr)
    (d : gmap Expression eqn_value) : Prop :=
  models σ' = models σ ∧ side_dicts σ' = side_dicts σ
  ∧ bc_dicts σ' = bc_dicts σ ∧ var_dicts σ' = var_dicts σ
  ∧ alg_lists σ' = alg_lists σ
  ∧ ∀ b, eqn_dicts σ' b = if decide (b = a) then d else eqn_dicts σ b.

(** [variable.domain == equation.domain or equation.domain == []] on a
    pair whose equation is an expression. *)
Definition domain_ok (item : Expression * eqn_value) : bool :=
  match item.2 with
  | Expr e => bool_decide (domain item.1 = domain e) || bool_decide (domain e = [])
  | Num _ => true
  end.

(** The store after the four writes of one round of [update]. *)
Definition update_merge (self submodel : addr) (σ : heap) : heap :=
  let σ1 := set_eqn_dict σ (_rhs (models σ self))
              (dict_update (rhs σ self) (rhs σ submodel)) in
  let σ2 := set_eqn_dict σ1 (_initial_conditions (models σ1 self))
              (dict_update (initial_conditions σ1 self)
                           (initial_conditions σ1 submodel)) in
  let σ3 := set_bc_dict σ2 (_boundary_conditions (models σ2 self))
              (dict_update (boundary_conditions σ2 self)
                           (boundary_conditions σ2 submodel)) in
  set_var_dict σ3 (_variables (models σ3 self))
    (dict_update (variables σ3 self) (variables σ3 submodel)).

(** Invariant I1 on a whole mapping, as [_set_dict] evaluates it. *)
Definition I1 (d : gmap Expression eqn_value) : bool :=
  forallb domain_ok (items d).

(** A mapping is consistent: it holds expressions only and satisfies
    I1. *)
Definition consistent (d : gmap Expression eqn_value) : Prop :=
  all_expr d ∧ ¬ I1_violated d.


(** The mappings of the submodels laid over the mapping of the host, one
    after the other, in the order given. *)
Definition merged {K V} `{Countable K} (host : gmap K V)
    (subs : list (gmap K V)) : gmap K V :=
  foldl dict_update host subs.


(** The condition the second pass of [check_well_posedness] asserts of a
    pair of [rhs], as a test. *)
Definition has_boundary_condition (σ : heap) (m : addr)
    (var eqn : Expression) : bool :=
  negb (has_spatial_derivatives eqn)
  || in_some_bc_key var (keys (boundary_conditions σ m)).

End Notions.

(** ** A concrete expression tree, for the examples *)

(** A symbol carries its [id], a name, a domain, whether it is a spatial
    operator, a numeric value when it is a scalar, and its children. *)
#[local] Unset Elimination Schemes.
Inductive symbol :=
| Symbol (ident : Z) (name : string) (dom : list string) (spatial : bool)
         (num : option Z) (children : list symbol).

#[local] Set Elimination Schemes.

Definition symbol_label : Type := Z * string * list string * bool * option Z.

Fixpoint symbol_enc (s : symbol) : gen_tree symbol_label :=
  match s with
  | Symbol i n d sp v ch => GenNode 0 (GenLeaf (i, n, d, sp, v) :: map symbol_enc ch)
  end.

Fixpoint symbol_dec (t : gen_tree symbol_label) : symbol :=
  match t with
  | GenNode _ (GenLeaf (i, n, d, sp, v) :: ts) => Symbol i n d sp v (map symbol_dec ts)
  | _ => Symbol 0 "" [] false None []
  end.

Fixpoint symbol_pre_order (s : symbol) : list symbol :=
  match s with
  | Symbol _ _ _ _ _ ch => s :: flat_map symbol_pre_order ch
  end.

Definition symbol_id (s : symbol) : Z := match s with Symbol i _ _ _ _ _ => i end.
Definition symbol_name (s : symbol) : string := match s with Symbol _ n _ _ _ _ => n end.
Definition symbol_domain (s : symbol) : list string := match s with Symbol _ _ d _ _ _ => d end.
Definition symbol_spatial (s : symbol) : bool := match s with Symbol _ _ _ sp _ _ => sp end.
Definition symbol_value (s : symbol) : option Z := match s with Symbol _ _ _ _ v _ => v end.

Lemma symbol_dec_enc (s : symbol) : symbol_dec (symbol_enc s) = s.
Proof.
  revert s. fix IH 1. intros [i n d sp v ch]. simpl. f_equal.
  induction ch as [|c ch IHch]; simpl; [done|]. by rewrite IH, IHch.
Qed.

#[global] Instance symbol_eq_dec : EqDecision symbol.
Proof.
  refine (λ x y, cast_if (decide (symbol_enc x = symbol_enc y))).
  - by rewrite <-(symbol_dec_enc x), <-(symbol_dec_enc y), e.
  - by intros ->.
Defined.

#[global] Instance symbol_countable : Countable symbol :=
  inj_countable' symbol_enc symbol_dec symbol_dec_enc.

#[global] Instance symbol_tree : ExpressionTree := {|
  Expression := symbol;
  number := Z;
  id := symbol_id;
  domain := symbol_domain;
  pre_order := symbol_pre_order;
  has_spatial_derivatives := λ s, existsb symbol_spatial (symbol_pre_order s);
  str := symbol_name;
  Scalar := λ n, Symbol 0 "scalar" [] false (Some n) [];
  value := symbol_value;
  Scalar_domain := λ _, eq_refl;
  Scalar_value := λ _, eq_refl
|}.

Module Examples.

(** The symbols of the scenarios of the spec: a concentration [c] and a
    temperature [T] on the electrolyte, [div (grad c)] as the equation of
    [c], a flux [grad c] as the key of a boundary condition. *)
Definition c : symbol := Symbol 1 "c" ["electrolyte"] false None [].
Definition T : symbol := Symbol 2 "T" ["electrolyte"] false None [].
Definition grad_c : symbol := Symbol 3 "grad" ["electrolyte"] true None [c].
Definition div_grad_c : symbol := Symbol 4 "div" ["electrolyte"] true None [grad_c].
Definition dTdt : symbol := Symbol 5 "dTdt" ["electrolyte"] false None [].
Definition dcdt : symbol := Symbol 6 "dcdt" ["electrolyte"] false None [].
Definition j_sep : symbol := Symbol 7 "j" ["separator"] false None [].

(** What [__init__] sets up: six new, empty collections.  The model at
    reference [m] has its [rhs], [initial_conditions] and
    [initial_conditions_ydot] at [10 m], [10 m + 1] and [10 m + 2]. *)
Definition new_model (m : addr) : BaseModel :=
  mkBaseModel (10 * m) (10 * m) (10 * m + 1) (10 * m + 2) (10 * m) (10 * m)
              None None.

(** The store after the models have been created and the caller has
    built the mappings it is about to assign. *)
Definition σ0 : heap :=
  mkHeap new_model
    (store_set (store_set (store_set (store_set (store_set (λ _, ∅)
       100 {[ c := Expr div_grad_c ]})
       101 {[ c := Num 1%Z ]})
       102 {[ T := Expr dTdt ]})
       103 {[ c := Expr dcdt ]})
       104 {[ c := Num 1%Z; T := Expr j_sep ]})
    (store_set (λ _, ∅) 301 {[ "left" := Num 0%Z; "right" := Expr dcdt ]})
    (store_set (λ _, ∅) 300 {[ grad_c := 301 ]})
    (store_set (store_set (λ _, ∅)
       200 {[ "concentration" := c ]})
       201 {[ "concentration" := T ]})
    (store_set (λ _, []) 400 [div_grad_c]).

(** Submodel 2 is the submodel A of the spec, submodel 3 is its submodel
    B; model 4 has an equation for [c] as well; model 5 has an algebraic
    equation and an initial condition and no [rhs]. *)
Definition build : M unit :=
  bind (rhs_setter 2 100) (λ _,
  bind (initial_conditions_setter 2 101) (λ _,
  bind (variables_setter 2 200) (λ _,
  bind (rhs_setter 3 102) (λ _,
  bind (variables_setter 3 201) (λ _,
  bind (rhs_setter 4 103) (λ _,
  bind (algebraic_setter 5 400) (λ _,
       (initial_conditions_setter 5 101)))))))).

Definition σ_built : heap := (build σ0).1.

(** The host 1 composed of A and B. *)
Definition σ_composed : heap := (update 1 [2; 3] σ_built).1.

(** Submodel A with its boundary conditions. *)
Definition σ_bcs : heap := (boundary_conditions_setter 2 300 σ_built).1.



End Examples.


(** * Properties *)

Section Proofs.
Context `{ET : ExpressionTree}.

(** ** Loops *)

Lemma for_each_app {A} (l1 l2 : list A) (body : A → M unit) σ :
  for_each (l1 ++ l2) body σ =
  match for_each l1 body σ with
  | (σ', Return _) => for_each l2 body σ'
  | (σ', Raise e) => (σ', Raise e)
  end.
Proof.
  revert σ. induction l1 as [|x l1 IH]; intros σ; simpl; [done|].
  unfold bind. destruct (body x σ) as [σ1 [[]|e]]; [apply IH|done].
Qed.

(** A loop whose body only reads the store leaves it as it is. *)
Lemma for_each_read_only {A} (l : list A) (body : A → M unit) σ :
  (∀ x σ, (body x σ).1 = σ) → (for_each l body σ).1 = σ.
Proof.
  intros Hbody. induction l as [|x l IH]; simpl; [done|].
  unfold bind. specialize (Hbody x σ).
  destruct (body x σ) as [σ1 [[]|e]]; simpl in *; by subst.
Qed.

(** A loop over read-only checks raises what the first failing element
    raises, the elements before it having passed. *)
Lemma for_each_raise_inv {A} (l : list A) (body : A → M unit) σ e :
  (∀ x σ, (body x σ).1 = σ) →
  (for_each l body σ).2 = Raise e →
  ∃ l1 x l2, l = l1 ++ x :: l2
    ∧ (∀ y, y ∈ l1 → (body y σ).2 = Return tt)
    ∧ (body x σ).2 = Raise e.
Proof.
  intros Hbody. induction l as [|x l IH]; simpl; [done|].
  unfold bind. pose proof (Hbody x σ) as Hx.
  destruct (body x σ) as [σ1 [[]|e1]] eqn:Hbx; simpl in *; subst σ1.
  - intros (l1 & y & l2 & -> & Hl1 & Hy)%IH.
    exists (x :: l1), y, l2. split_and!; [done| |done].
    intros z [->|Hz]%elem_of_cons; [by rewrite Hbx|by apply Hl1].
  - intros [= ->]. exists [], x, l. split_and!; [done| |by rewrite Hbx].
    intros y Hy. by apply elem_of_nil in Hy.
Qed.

Lemma for_each_return_iff {A} (l : list A) (body : A → M unit) σ :
  (∀ x σ, (body x σ).1 = σ) →
  (for_each l body σ).2 = Return tt ↔ ∀ x, x ∈ l → (body x σ).2 = Return tt.
Proof.
  intros Hbody. induction l as [|x l IH]; simpl.
  - split; [|done]. intros _ x Hx. by apply elem_of_nil in Hx.
  - unfold bind. pose proof (Hbody x σ) as Hx.
    destruct (body x σ) as [σ1 [[]|e1]] eqn:Hbx; simpl in *; subst σ1.
    + rewrite IH. split.
      * intros Hl y [->|Hy]%elem_of_cons; [by rewrite Hbx|by apply Hl].
      * intros Hl y Hy. apply Hl. by right.
    + split; [done|]. intros Hl.
      specialize (Hl x (list_elem_of_here _ _)). by rewrite Hbx in Hl.
Qed.

(** ** The lifting loop *)

Lemma foldl_lift_step_lookup {K} `{Countable K}
    (l : list (K * eqn_value)) (d0 : gmap K eqn_value) (k : K) :
  NoDup l.*1 →
  foldl lift_step d0 l !! k =
  match (list_to_map l : gmap K eqn_value) !! k with
  | Some (Num n) => Some (Expr (Scalar n))
  | _ => d0 !! k
  end.
Proof.
  revert d0. induction l as [|[k' v] l IH]; intros d0 Hnd; simpl.
  - by rewrite lookup_empty.
  - apply NoDup_cons in Hnd as [Hk' Hnd]. rewrite IH by done.
    destruct (decide (k' = k)) as [->|Hne].
    + rewrite lookup_insert_eq.
      rewrite (not_elem_of_list_to_map_1 l k) by done.
      unfold lift_step; simpl. destruct v; [by rewrite lookup_insert_eq|done].
    + rewrite lookup_insert_ne by done.
      destruct (list_to_map l !! k) as [[n|e]|]; try done;
        unfold lift_step; simpl; destruct v; by rewrite ?lookup_insert_ne.
Qed.

(** Run over its own items, the loop turns a dictionary into its lifted
    form: every number replaced, every expression and every key kept. *)
Lemma foldl_lift_step_items {K} `{Countable K} (d : gmap K eqn_value) :
  foldl lift_step d (items d) = lifted d.
Proof.
  apply map_eq. intros k. unfold items, lifted.
  rewrite foldl_lift_step_lookup by apply NoDup_fst_map_to_list.
  rewrite list_to_map_to_list, lookup_fmap.
  by destruct (d !! k) as [[n|e]|].
Qed.

Lemma lifted_all_expr {K} `{Countable K} (d : gmap K eqn_value) :
  all_expr (lifted d).
Proof.
  intros k x. unfold lifted. rewrite lookup_fmap.
  destruct (d !! k) as [[n|e]|]; simpl; intros [= <-]; eauto.
Qed.

Lemma lifted_of_all_expr {K} `{Countable K} (d : gmap K eqn_value) :
  all_expr d → lifted d = d.
Proof.
  intros Hd. apply map_eq. intros k. unfold lifted. rewrite lookup_fmap.
  destruct (d !! k) as [x|] eqn:Hk; [|done].
  destruct (Hd k x Hk) as [e ->]. done.
Qed.

Lemma only_eqn_dict_changed_refl σ a :
  only_eqn_dict_changed σ σ a (eqn_dicts σ a).
Proof.
  unfold only_eqn_dict_changed. split_and!; try done.
  intros b. case_decide; by subst.
Qed.

Lemma lift_loop dict (its : list (Expression * eqn_value)) σ :
  ∃ σ',
    for_each its (λ '(var, eqn),
      match eqn with
      | Num n =>
          modify (λ σ, set_eqn_dict σ dict
                         (<[var := Expr (Scalar n)]> (eqn_dicts σ dict)))
      | Expr _ => ret tt
      end) σ = (σ', Return tt)
    ∧ only_eqn_dict_changed σ σ' dict (foldl lift_step (eqn_dicts σ dict) its).
Proof.
  revert σ. induction its as [|[var eqn] its IH]; intros σ; simpl.
  - exists σ. split; [done|]. apply only_eqn_dict_changed_refl.
  - unfold bind at 1. destruct eqn as [n|e]; simpl.
    + unfold modify at 1.
      set (σ1 := set_eqn_dict σ dict _).
      destruct (IH σ1) as (σ' & Hrun & Hm & Hs & Hb & Hv & Ha & Heq).
      exists σ'. split; [exact Hrun|].
      unfold only_eqn_dict_changed. split_and!; try done.
      intros b. rewrite Heq. subst σ1. simpl. unfold store_set.
      destruct (decide (b = dict)) as [->|Hne]; [|done].
      by rewrite decide_True.
    + unfold ret at 1. apply IH.
Qed.

(** ** [_set_dict] *)

Lemma comprehension_domain_consistent (l : list (Expression * eqn_value)) σ :
  (∀ item, item ∈ l → ∃ e, item.2 = Expr e) →
  comprehension (λ '(variable, equation),
                   domain_consistent variable equation) l σ
  = (σ, Return (domain_ok <$> l)).
Proof.
  induction l as [|[v x] l IH]; intros Hl; simpl; [done|].
  destruct (Hl (v, x)) as [e He]; [by left|]. simpl in He. subst x.
  unfold bind at 1. simpl. unfold ret at 1. unfold bind.
  rewrite IH; [done|]. intros item Hitem. apply Hl. by right.
Qed.

Lemma forallb_fmap_id {A} (f : A → bool) (l : list A) :
  forallb (λ b : bool, b) (f <$> l) = forallb f l.
Proof. induction l as [|x l IH]; csimpl; [done|]. by rewrite IH. Qed.

Lemma forallb_false_iff {A} (f : A → bool) (l : list A) :
  forallb f l = false ↔ ∃ x, x ∈ l ∧ f x = false.
Proof.
  induction l as [|x l IH]; simpl.
  - split; [done|]. intros (x & Hx & _). by apply elem_of_nil in Hx.
  - rewrite andb_false_iff, IH. split.
    + intros [Hx|(y & Hy & Hfy)]; [exists x|exists y]; split; try done;
        [by left|by right].
    + intros (y & [->|Hy]%elem_of_cons & Hfy); [by left|right; eauto].
Qed.

Lemma domain_ok_false_iff (v : Expression) (x : eqn_value) :
  domain_ok (v, x) = false ↔
  ∃ e, x = Expr e ∧ domain v ≠ domain e ∧ domain e ≠ [].
Proof.
  unfold domain_ok; simpl. destruct x as [n|e].
  - split; [done|]. by intros (e & ? & _).
  - rewrite orb_false_iff, !bool_decide_eq_false. split.
    + intros [??]. eauto.
    + by intros (e' & [= <-] & ? & ?).
Qed.

Lemma I1_false_iff (d : gmap Expression eqn_value) :
  I1 d = false ↔ I1_violated d.
Proof.
  unfold I1, I1_violated, items. rewrite forallb_false_iff. split.
  - intros ([v x] & Hin & (e & -> & ? & ?)%domain_ok_false_iff).
    apply elem_of_map_to_list in Hin. eauto.
  - intros (v & e & Hin & ? & ?). exists (v, Expr e). split.
    + by apply elem_of_map_to_list.
    + apply domain_ok_false_iff. eauto.
Qed.

Lemma I1_true_iff (d : gmap Expression eqn_value) :
  I1 d = true ↔ ¬ I1_violated d.
Proof. rewrite <-I1_false_iff. by destruct (I1 d). Qed.

(** What [_set_dict] does: the dictionary object it is given is lifted in
    place, nothing else is written, and the call raises [DomainError] when
    the lifted dictionary violates I1 and returns the object otherwise. *)
Lemma _set_dict_spec dict name σ :
  ∃ σ',
    _set_dict dict name σ =
      (σ', if I1 (lifted (eqn_dicts σ dict)) then Return dict
           else Raise (DomainError (DomainError_msg name)))
    ∧ only_eqn_dict_changed σ σ' dict (lifted (eqn_dicts σ dict)).
Proof.
  unfold _set_dict.
  destruct (lift_loop dict (items (eqn_dicts σ dict)) σ) as (σ' & Hrun & Hch).
  rewrite foldl_lift_step_items in Hch.
  exists σ'. split; [|done].
  unfold bind at 1. unfold gets at 1. unfold bind at 1. rewrite Hrun.
  unfold bind at 1. unfold gets at 1.
  destruct Hch as (_ & _ & _ & _ & _ & Heq).
  rewrite Heq, decide_True by done.
  unfold bind. rewrite comprehension_domain_consistent.
  - rewrite forallb_fmap_id. fold (I1 (lifted (eqn_dicts σ dict))).
    by destruct (I1 _).
  - intros [v x] Hin. apply elem_of_map_to_list in Hin.
    by apply lifted_all_expr in Hin.
Qed.

(** ** The setters of [rhs], [initial_conditions], [initial_conditions_ydot] *)

Lemma registry_setter_spec r self dict σ :
  ∃ σ',
    only_eqn_dict_changed σ σ' dict (lifted (eqn_dicts σ dict))
    ∧ registry_setter r self dict σ =
        if I1 (lifted (eqn_dicts σ dict))
        then (set_model σ' self (registry_with r (models σ' self) dict), Return tt)
        else (σ', Raise (DomainError (DomainError_msg (registry_name r)))).
Proof.
  destruct (_set_dict_spec dict (registry_name r) σ) as (σ' & Hrun & Hch).
  exists σ'. split; [done|].
  destruct r; simpl in *;
    unfold rhs_setter, initial_conditions_setter, initial_conditions_ydot_setter,
      bind; rewrite Hrun; by destruct (I1 _).
Qed.

Lemma registry_attr_with r m a : registry_attr r (registry_with r m a) = a.
Proof. by destruct r. Qed.

(** C4.  Each of the three setters raises [DomainError], with the message
    that names its registry, exactly when the mapping it is given, once
    its numbers are lifted, has a pair whose variable and equation have
    different domains, the domain of the equation not being empty; it
    returns exactly when there is no such pair.  The exception is the
    outcome of the assignment itself. *)
Theorem setter_DomainError_iff (r : eqn_registry) (self dict : addr) (σ : heap) :
  (I1_violated (lifted (eqn_dicts σ dict)) ↔
     (registry_setter r self dict σ).2
       = Raise (DomainError ("variable and equation in " +:+ registry_name r
                               +:+ " must have the same domain")))
  ∧ (¬ I1_violated (lifted (eqn_dicts σ dict)) ↔
       (registry_setter r self dict σ).2 = Return tt).
Proof.
  destruct (registry_setter_spec r self dict σ) as (σ' & _ & ->).
  rewrite <-I1_false_iff. fold (DomainError_msg (registry_name r)).
  destruct (I1 _); simpl; split; split; done.
Qed.


(** C5.  When the mapping given to one of the three setters has a pair of
    an expression variable and an expression equation with different
    domains, the domain of the equation not being empty, the setter raises
    [DomainError] and the registry is as before: its attributes, and the
    contents of each of its six collections.  The registry is taken as the
    data model has it, its three equation mappings holding expressions
    only. *)
Theorem failed_setter_leaves_registry (r : eqn_registry) (self dict : addr)
    (σ : heap) (variable equation : Expression) :
  registries_typed σ self →
  eqn_dicts σ dict !! variable = Some (Expr equation) →
  domain variable ≠ domain equation →
  domain equation ≠ [] →
  let σ' := (registry_setter r self dict σ).1 in
  (registry_setter r self dict σ).2
    = Raise (DomainError (DomainError_msg (registry_name r)))
  ∧ models σ' self = models σ self
  ∧ rhs σ' self = rhs σ self
  ∧ algebraic σ' self = algebraic σ self
  ∧ initial_conditions σ' self = initial_conditions σ self
  ∧ initial_conditions_ydot σ' self = initial_conditions_ydot σ self
  ∧ boundary_conditions σ' self = boundary_conditions σ self
  ∧ variables σ' self = variables σ self
  ∧ side_dicts σ' = side_dicts σ.
Proof.
  intros Htyped Hpair Hdom Hne.
  destruct (registry_setter_spec r self dict σ)
    as (σ' & (Hm & Hs & Hb & Hv & Ha & Heq) & ->).
  assert (I1 (lifted (eqn_dicts σ dict)) = false) as ->.
  { apply I1_false_iff. exists variable, equation. split; [|done].
    unfold lifted. by rewrite lookup_fmap, Hpair. }
  simpl.
  assert (∀ q, eqn_dicts σ' (registry_attr q (models σ self))
               = eqn_dicts σ (registry_attr q (models σ self))) as Hsame.
  { intros q. rewrite Heq. case_decide as Hd; [|done].
    rewrite <-Hd. apply lifted_of_all_expr, Htyped. }
  unfold rhs, algebraic, initial_conditions, initial_conditions_ydot,
    boundary_conditions, variables.
  rewrite Hm, Hs, Hb, Hv, Ha.
  split_and!; try done; [apply (Hsame Rhs)|apply (Hsame InitialConditions)
                        |apply (Hsame InitialConditionsYdot)].
Qed.

(** ** The setter of [boundary_conditions] *)

Lemma lifted_idemp {K} `{Countable K} (d : gmap K eqn_value) :
  lifted (lifted d) = lifted d.
Proof. apply lifted_of_all_expr, lifted_all_expr. Qed.

(** The inner loop of the setter, on the inner dictionary [r] that the
    outer dictionary [a] has under [var]. *)
Lemma lift_side_loop (a : addr) (var : Expression) (r : addr)
    (its : list (string * eqn_value)) σ :
  bc_dicts σ a !! var = Some r →
  ∃ σ',
    for_each its (λ '(side, eqn),
      match eqn with
      | Num n =>
          bind (subscript_bc a var) (λ target,
          modify (λ σ, set_side_dict σ target
                         (<[side := Expr (Scalar n)]> (side_dicts σ target))))
      | Expr _ => ret tt
      end) σ = (σ', Return tt)
    ∧ models σ' = models σ ∧ eqn_dicts σ' = eqn_dicts σ
    ∧ bc_dicts σ' = bc_dicts σ ∧ var_dicts σ' = var_dicts σ
    ∧ alg_lists σ' = alg_lists σ
    ∧ ∀ b, side_dicts σ' b =
           if decide (b = r) then foldl lift_step (side_dicts σ r) its
           else side_dicts σ b.
Proof.
  revert σ. induction its as [|[side eqn] its IH]; intros σ Hvar; simpl.
  - exists σ. split_and!; try done. intros b. case_decide; by subst.
  - unfold bind at 1. destruct eqn as [n|e]; simpl.
    + unfold bind at 1. unfold subscript_bc at 1. rewrite Hvar.
      unfold modify at 1.
      set (σ1 := set_side_dict σ r _).
      destruct (IH σ1 Hvar) as (σ' & Hrun & Hm & He & Hb & Hv & Ha & Heq).
      exists σ'. split; [exact Hrun|]. split_and!; try done.
      intros b. rewrite Heq. subst σ1. simpl. unfold store_set.
      destruct (decide (b = r)) as [->|Hne]; [|done].
      by rewrite decide_True.
    + unfold ret at 1. by apply IH.
Qed.

Lemma lift_outer_loop (a : addr) (outer : list (Expression * addr)) σ :
  (∀ var r, (var, r) ∈ outer → bc_dicts σ a !! var = Some r) →
  ∃ σ',
    for_each outer (λ '(var, bcs),
      bind (gets (λ σ, items (side_dicts σ bcs))) (λ inner,
      for_each inner (λ '(side, eqn),
        match eqn with
        | Num n =>
            bind (subscript_bc a var) (λ target,
            modify (λ σ, set_side_dict σ target
                           (<[side := Expr (Scalar n)]> (side_dicts σ target))))
        | Expr _ => ret tt
        end))) σ = (σ', Return tt)
    ∧ models σ' = models σ ∧ eqn_dicts σ' = eqn_dicts σ
    ∧ bc_dicts σ' = bc_dicts σ ∧ var_dicts σ' = var_dicts σ
    ∧ alg_lists σ' = alg_lists σ
    ∧ ∀ b, side_dicts σ' b =
           if decide (b ∈ outer.*2) then lifted (side_dicts σ b)
           else side_dicts σ b.
Proof.
  revert σ. induction outer as [|[var r] outer IH]; intros σ Houter; simpl.
  - exists σ. by split_and!.
  - unfold bind at 1. unfold bind at 1. unfold gets at 1.
    destruct (lift_side_loop a var r (items (side_dicts σ r)) σ)
      as (σ1 & Hrun1 & Hm1 & He1 & Hb1 & Hv1 & Ha1 & Heq1).
    { apply Houter. by left. }
    rewrite Hrun1. rewrite foldl_lift_step_items in Heq1.
    destruct (IH σ1) as (σ' & Hrun & Hm & He & Hb & Hv & Ha & Heq).
    { intros var' r' Hin. rewrite Hb1. apply Houter. by right. }
    exists σ'. split; [exact Hrun|].
    split_and!; try congruence.
    intros b. rewrite Heq, Heq1. csimpl.
    repeat case_decide; subst; rewrite ?lifted_idemp; try done;
      exfalso; rewrite elem_of_cons in *; tauto.
Qed.

(** What the setter of [boundary_conditions] does: every inner dictionary
    the given mapping refers to is lifted in place, the outer mapping is
    not written, and the attribute of the model is the given object. *)
Lemma boundary_conditions_setter_spec self bcs σ :
  ∃ σ',
    boundary_conditions_setter self bcs σ =
      (set_model σ' self (with_boundary_conditions (models σ' self) bcs),
       Return tt)
    ∧ models σ' = models σ ∧ eqn_dicts σ' = eqn_dicts σ
    ∧ bc_dicts σ' = bc_dicts σ ∧ var_dicts σ' = var_dicts σ
    ∧ alg_lists σ' = alg_lists σ
    ∧ (∀ var b, bc_dicts σ bcs !! var = Some b →
         side_dicts σ' b = lifted (side_dicts σ b))
    ∧ (∀ b, (∀ var, bc_dicts σ bcs !! var ≠ Some b) →
         side_dicts σ' b = side_dicts σ b).
Proof.
  destruct (lift_outer_loop bcs (items (bc_dicts σ bcs)) σ)
    as (σ' & Hrun & Hm & He & Hb & Hv & Ha & Heq).
  { intros var r Hin. by apply elem_of_map_to_list. }
  exists σ'. split.
  - unfold boundary_conditions_setter. unfold bind at 1. unfold gets at 1.
    cbv beta iota. unfold bind at 1. by rewrite Hrun.
  - assert (∀ b, b ∈ (items (bc_dicts σ bcs)).*2
                 ↔ ∃ var, bc_dicts σ bcs !! var = Some b) as Hiff.
    { intros b. unfold items. rewrite list_elem_of_fmap. split.
      - intros ([var b'] & -> & Hin). exists var.
        by apply elem_of_map_to_list.
      - intros [var Hvar]. exists (var, b). split; [done|].
        by apply elem_of_map_to_list. }
    split_and!; try done.
    + intros var b Hvar. rewrite Heq, decide_True; [done|].
      apply Hiff. eauto.
    + intros b Hb'. rewrite Heq, decide_False; [done|].
      rewrite Hiff. intros [var Hvar]. by apply (Hb' var).
Qed.


(** ** [check_well_posedness] *)

Lemma elem_of_keys {K V} `{Countable K} (d : gmap K V) (k : K) :
  k ∈ keys d ↔ is_Some (d !! k).
Proof.
  unfold keys. rewrite list_elem_of_fmap. split.
  - intros ([k' v] & -> & Hin). apply elem_of_map_to_list in Hin. eauto.
  - intros [v Hv]. exists (k, v). split; [done|]. by apply elem_of_map_to_list.
Qed.

Lemma check_initial_condition_eq self var σ :
  check_initial_condition self var σ =
    (σ, if bool_decide (var ∈ keys (initial_conditions σ self)) then Return tt
        else Raise (AssertionError (ModelError (no_initial_condition_msg var)))).
Proof.
  unfold check_initial_condition, bind, gets, assert_, ret, raise.
  by destruct (bool_decide _).
Qed.

Lemma check_boundary_condition_eq self var eqn σ :
  check_boundary_condition self (var, Expr eqn) σ =
    (σ, if has_spatial_derivatives eqn
           && negb (in_some_bc_key var (keys (boundary_conditions σ self)))
        then Raise (AssertionError
                      (ModelError (no_boundary_condition_msg var eqn)))
        else Return tt).
Proof.
  unfold check_boundary_condition, bind, gets, assert_, ret, raise.
  destruct (has_spatial_derivatives eqn); [|done].
  by destruct (in_some_bc_key _ _).
Qed.

Lemma check_initial_condition_read_only self var σ :
  (check_initial_condition self var σ).1 = σ.
Proof. by rewrite check_initial_condition_eq. Qed.

Lemma check_boundary_condition_read_only self item σ :
  (check_boundary_condition self item σ).1 = σ.
Proof.
  destruct item as [var [n|e]]; [done|].
  by rewrite check_boundary_condition_eq.
Qed.

Lemma check_initial_conditions_read_only self σ :
  (check_initial_conditions self σ).1 = σ.
Proof.
  unfold check_initial_conditions, bind, gets.
  apply for_each_read_only, check_initial_condition_read_only.
Qed.

Lemma check_boundary_conditions_read_only self σ :
  (check_boundary_conditions self σ).1 = σ.
Proof.
  unfold check_boundary_conditions, bind, gets.
  apply for_each_read_only, check_boundary_condition_read_only.
Qed.

(** The check reads the store and never writes it. *)
Lemma check_well_posedness_read_only self σ :
  (check_well_posedness self σ).1 = σ.
Proof.
  unfold check_well_posedness, bind.
  pose proof (check_initial_conditions_read_only self σ) as H1.
  destruct (check_initial_conditions self σ) as [σ1 [[]|e]]; simpl in *; subst.
  - apply check_boundary_conditions_read_only.
  - done.
Qed.

(** The outcome of the whole check, from the outcomes of its two passes. *)
Lemma check_well_posedness_passes self σ :
  check_well_posedness self σ =
    match (check_initial_conditions self σ).2 with
    | Return _ => (σ, (check_boundary_conditions self σ).2)
    | Raise e => (σ, Raise e)
    end.
Proof.
  unfold check_well_posedness, bind.
  pose proof (check_initial_conditions_read_only self σ) as H1.
  pose proof (check_boundary_conditions_read_only self σ) as H2.
  destruct (check_initial_conditions self σ) as [σ1 [[]|e]]; simpl in *; subst;
    [|done].
  destruct (check_boundary_conditions self σ) as [σ2 o]; simpl in *.
  by subst.
Qed.

Lemma in_some_bc_key_false_iff (var : Expression) (bc_keys : list Expression) :
  in_some_bc_key var bc_keys = false ↔
  ∀ key symbol, key ∈ bc_keys → symbol ∈ pre_order key → id symbol ≠ id var.
Proof.
  unfold in_some_bc_key. split.
  - intros Hf key symbol Hkey Hsym Hid.
    apply not_true_iff_false in Hf. apply Hf.
    apply existsb_exists. exists key. split; [by apply list_elem_of_In|].
    apply existsb_exists. exists symbol. split; [by apply list_elem_of_In|].
    by apply bool_decide_eq_true.
  - intros Hall. apply not_true_iff_false.
    intros (key & Hkey & (symbol & Hsym & Hid%bool_decide_eq_true)%existsb_exists)
      %existsb_exists.
    apply list_elem_of_In in Hkey, Hsym. by apply (Hall key symbol).
Qed.

Lemma check_boundary_condition_raise_iff self var eqn σ e :
  (check_boundary_condition self (var, Expr eqn) σ).2 = Raise e ↔
  lacks_boundary_condition σ self var eqn
  ∧ e = AssertionError (ModelError (no_boundary_condition_msg var eqn)).
Proof.
  rewrite check_boundary_condition_eq. unfold lacks_boundary_condition. simpl.
  destruct (has_spatial_derivatives eqn); simpl.
  - destruct (in_some_bc_key _ _) eqn:Hin; simpl.
    + split; [done|]. intros [[_ Hall] _].
      apply not_false_iff_true in Hin. destruct Hin.
      apply in_some_bc_key_false_iff. intros key symbol Hkey.
      apply Hall. by apply elem_of_keys.
    + split.
      * intros [= <-]. split_and!; try done.
        intros key symbol Hkey%elem_of_keys.
        by apply (proj1 (in_some_bc_key_false_iff _ _) Hin).
      * by intros [_ ->].
  - split; [done|]. by intros [[? _] _].
Qed.

Lemma outcome_unit_cases (o : outcome unit) : o = Return tt ∨ ∃ e, o = Raise e.
Proof. destruct o as [[]|e]; eauto. Qed.

Lemma check_initial_condition_return_iff self var σ :
  (check_initial_condition self var σ).2 = Return tt ↔
  is_Some (initial_conditions σ self !! var).
Proof.
  rewrite check_initial_condition_eq, <-elem_of_keys. simpl.
  case_bool_decide; split; done.
Qed.


(** C2, as the code has it.  On a model whose [rhs] holds expressions and
    whose first pass succeeds, [check_well_posedness] fails exactly when
    some pair [(v, eqn)] of [rhs] is such that [eqn] has spatial
    derivatives and no key of [boundary_conditions] has in its traversal an
    expression with the [id] of [v].  It then raises [AssertionError],
    whose argument is the [ModelError] with the message that names the
    variable and the equation of such a pair.  The check of one pair fails
    exactly under that condition. *)
Theorem missing_boundary_condition (self : addr) (σ : heap) :
  all_expr (rhs σ self) →
  (check_initial_conditions self σ).2 = Return tt →
  ((∃ e, (check_well_posedness self σ).2 = Raise e) ↔
     ∃ v eqn, rhs σ self !! v = Some (Expr eqn)
              ∧ lacks_boundary_condition σ self v eqn)
  ∧ (∀ e, (check_well_posedness self σ).2 = Raise e →
       ∃ v eqn, rhs σ self !! v = Some (Expr eqn)
         ∧ lacks_boundary_condition σ self v eqn
         ∧ e = AssertionError (ModelError (no_boundary_condition_msg v eqn)))
  ∧ (∀ v eqn,
       (∃ e, (check_boundary_condition self (v, Expr eqn) σ).2 = Raise e)
       ↔ lacks_boundary_condition σ self v eqn).
Proof.
  intros Htyped Hfirst.
  rewrite check_well_posedness_passes, Hfirst. simpl.
  assert (∀ e, (check_boundary_conditions self σ).2 = Raise e →
       ∃ v eqn, rhs σ self !! v = Some (Expr eqn)
         ∧ lacks_boundary_condition σ self v eqn
         ∧ e = AssertionError (ModelError (no_boundary_condition_msg v eqn)))
    as Hinv.
  { intros e He. unfold check_boundary_conditions, bind, gets in He.
    apply for_each_raise_inv in He
      as (l1 & [v x] & l2 & Hitems & _ & Hv);
      [|apply check_boundary_condition_read_only].
    assert (rhs σ self !! v = Some x) as Hx.
    { apply elem_of_map_to_list. unfold items in Hitems. rewrite Hitems.
      apply elem_of_app. right. by left. }
    destruct (Htyped v x Hx) as [eqn ->].
    apply check_boundary_condition_raise_iff in Hv as [? ->]. eauto. }
  split_and!.
  - split.
    + intros [e He]. destruct (Hinv e He) as (v & eqn & ? & ? & _). eauto.
    + intros (v & eqn & Hrhs & Hlack).
      destruct (outcome_unit_cases (check_boundary_conditions self σ).2)
        as [Hret|?]; [|done].
      unfold check_boundary_conditions, bind, gets in Hret.
      rewrite for_each_return_iff in Hret
        by apply check_boundary_condition_read_only.
      specialize (Hret (v, Expr eqn)).
      assert ((check_boundary_condition self (v, Expr eqn) σ).2
              = Raise (AssertionError
                         (ModelError (no_boundary_condition_msg v eqn))))
        as Hraise by by apply check_boundary_condition_raise_iff.
      rewrite Hret in Hraise; [done|]. by apply elem_of_map_to_list.
  - done.
  - intros v eqn. split.
    + intros [e He]. by apply check_boundary_condition_raise_iff in He as [? _].
    + intros Hlack. eexists. by apply check_boundary_condition_raise_iff.
Qed.

(** C10.  On a model whose [rhs] is empty [check_well_posedness] returns,
    whatever [algebraic], [initial_conditions], [initial_conditions_ydot],
    [boundary_conditions] and [variables] hold, and leaves the store as it
    is. *)
Theorem check_well_posedness_empty_rhs (self : addr) (σ : heap) :
  rhs σ self = ∅ →
  check_well_posedness self σ = (σ, Return tt).
Proof.
  intros Hrhs.
  rewrite check_well_posedness_passes.
  unfold check_initial_conditions, check_boundary_conditions, bind, gets,
    keys, items.
  rewrite Hrhs, map_to_list_empty. reflexivity.
Qed.

(** The outcome of the check depends on the attributes of the models, on
    the equation mappings and on the boundary-condition mappings only:
    neither [algebraic] nor [variables] nor the values of the sides are
    read. *)
Lemma check_well_posedness_reads (self : addr) (σ τ : heap) :
  models τ = models σ → eqn_dicts τ = eqn_dicts σ → bc_dicts τ = bc_dicts σ →
  (check_well_posedness self τ).2 = (check_well_posedness self σ).2.
Proof.
  intros Hm He Hb.
  assert (∀ (l : list Expression) τ σ, models τ = models σ →
            eqn_dicts τ = eqn_dicts σ →
            (for_each l (check_initial_condition self) τ).2
            = (for_each l (check_initial_condition self) σ).2) as H1.
  { clear. intros l τ σ Hm He. induction l as [|x l IH]; simpl; [done|].
    unfold bind. rewrite !check_initial_condition_eq.
    unfold initial_conditions. rewrite Hm, He.
    by destruct (bool_decide _). }
  assert (∀ (l : list (Expression * eqn_value)) τ σ, models τ = models σ →
            bc_dicts τ = bc_dicts σ →
            (for_each l (check_boundary_condition self) τ).2
            = (for_each l (check_boundary_condition self) σ).2) as H2.
  { clear. intros l τ σ Hm Hb.
    induction l as [|[v x] l IH]; cbn [for_each]; [done|].
    unfold bind. destruct x as [n|e]; [done|].
    rewrite !check_boundary_condition_eq.
    unfold boundary_conditions. rewrite Hm, Hb.
    by destruct (_ && _). }
  rewrite !check_well_posedness_passes.
  unfold check_initial_conditions, check_boundary_conditions, bind, gets, rhs.
  rewrite Hm, He, (H1 _ τ σ Hm He), (H2 _ τ σ Hm Hb).
  by destruct (for_each _ _ σ).2.
Qed.

(** ** [update] *)

Lemma size_list_to_set_le (vars : list Z) :
  (size (list_to_set vars : gset Z) ≤ length vars)%nat.
Proof.
  induction vars as [|x vars IH].
  - by rewrite list_to_set_nil, size_empty.
  - rewrite list_to_set_cons, size_union_alt, size_singleton. cbn [length].
    assert (size (list_to_set vars ∖ {[x]} : gset Z)
            ≤ size (list_to_set vars : gset Z))%nat
      by (apply subseteq_size, subseteq_difference_l; done).
    lia.
Qed.

(** [len(vars) == len(set(vars))] holds exactly when no element occurs
    twice. *)
Lemma all_distinct_NoDup (vars : list Z) :
  all_distinct vars = true ↔ NoDup vars.
Proof.
  unfold all_distinct. rewrite Nat.eqb_eq.
  split; [|intros Hnd; symmetry; by apply size_list_to_set].
  induction vars as [|x vars IH]; intros Hsize; [constructor|].
  rewrite list_to_set_cons in Hsize. cbn [length] in Hsize. pose proof (size_list_to_set_le vars) as Hle.
  destruct (decide (x ∈ vars)) as [Hin|Hnin].
  - assert ({[x]} ∪ list_to_set vars = (list_to_set vars : gset Z)) as Heq.
    { apply set_eq. intros y.
      rewrite elem_of_union, elem_of_singleton, elem_of_list_to_set.
      split; [intros [->|?]; done|by right]. }
    rewrite Heq in Hsize. lia.
  - rewrite size_union, size_singleton in Hsize.
    + apply NoDup_cons. split; [done|]. apply IH; lia.
    + intros y ->%elem_of_singleton. by rewrite elem_of_list_to_set.
Qed.

(** One round of [update]: the assertion, then the four writes. *)
Lemma update_one_eq self submodel σ :
  update_one self submodel σ =
    if all_distinct (rhs_ids σ submodel ++ rhs_ids σ self)
    then (update_merge self submodel σ, Return tt)
    else (σ, Raise (AssertionError (ModelError "duplicate variables"))).
Proof.
  unfold update_one, bind, gets, assert_, rhs_ids.
  by destruct (all_distinct _).
Qed.

(** What one round writes: the host's [rhs] and [initial_conditions]
    objects among the equation mappings, the host's [boundary_conditions]
    object, the host's [variables] object, and nothing else. *)
Lemma update_merge_frame self submodel σ :
  let σ' := update_merge self submodel σ in
  models σ' = models σ ∧ alg_lists σ' = alg_lists σ
  ∧ side_dicts σ' = side_dicts σ
  ∧ (∀ b, b ≠ _rhs (models σ self) → b ≠ _initial_conditions (models σ self) →
       eqn_dicts σ' b = eqn_dicts σ b)
  ∧ (∀ b, b ≠ _boundary_conditions (models σ self) →
       bc_dicts σ' b = bc_dicts σ b)
  ∧ (∀ b, b ≠ _variables (models σ self) → var_dicts σ' b = var_dicts σ b).
Proof.
  unfold update_merge; simpl. split_and!; try done.
  - intros b H1 H2. unfold store_set. by rewrite !decide_False.
  - intros b H1. unfold store_set. by rewrite !decide_False.
  - intros b H1. unfold store_set. by rewrite !decide_False.
Qed.



(** *** Duplicated [id]s are found *)

Lemma submseteq_NoDup {A} (l k : list A) : l ⊆+ k → NoDup k → NoDup l.
Proof.
  intros [k' Hk']%submseteq_Permutation Hnd. rewrite Hk' in Hnd.
  by apply NoDup_app in Hnd as [? _].
Qed.

(** A dictionary that has gained keys has gained [id]s. *)
Lemma keys_submseteq {V} (d d' : gmap Expression V) :
  (∀ k, is_Some (d !! k) → is_Some (d' !! k)) → keys d ⊆+ keys d'.
Proof.
  intros Hincl. apply NoDup_submseteq; [apply NoDup_fst_map_to_list|].
  intros k. rewrite !elem_of_keys. apply Hincl.
Qed.

Lemma lookup_dict_update_is_Some {K V} `{Countable K} (d other : gmap K V) k :
  is_Some (dict_update d other !! k) ↔ is_Some (other !! k) ∨ is_Some (d !! k).
Proof. unfold dict_update. apply lookup_union_is_Some. Qed.

(** One round of [update] removes no key from any equation mapping, and
    the host's [rhs] has the keys of the submodel's [rhs] afterwards. *)
Lemma update_merge_keys self submodel σ :
  let σ' := update_merge self submodel σ in
  (∀ b k, is_Some (eqn_dicts σ b !! k) → is_Some (eqn_dicts σ' b !! k))
  ∧ (∀ k, is_Some (rhs σ submodel !! k) → is_Some (rhs σ' self !! k)).
Proof.
  assert (∀ (s : store (gmap Expression eqn_value)) a other b k,
            is_Some (s b !! k) →
            is_Some (store_set s a (dict_update (s a) other) b !! k)) as Hgrow.
  { intros s a other b k Hk. unfold store_set. case_decide as Hb; [|done].
    subst. apply lookup_dict_update_is_Some. by right. }
  unfold update_merge, rhs; simpl. split.
  - intros b k Hk. unfold initial_conditions; simpl.
    by apply Hgrow, Hgrow.
  - intros k Hk. unfold initial_conditions; simpl. apply Hgrow.
    unfold store_set at 1. rewrite decide_True by done.
    apply lookup_dict_update_is_Some. by left.
Qed.

Lemma update_merge_ids self s rest σ :
  NoDup (rhs_ids σ s ++ rhs_ids σ self) →
  rhs_ids σ self ++ (s :: rest) ≫= rhs_ids σ
  ⊆+ rhs_ids (update_merge self s σ) self
      ++ rest ≫= rhs_ids (update_merge self s σ).
Proof.
  intros Hnd.
  destruct (update_merge_keys self s σ) as [Hgrow Hsub].
  destruct (update_merge_frame self s σ) as (Hm & _).
  cbv zeta in *. rewrite bind_cons, (assoc (++)).
  apply submseteq_app.
  - unfold rhs_ids. rewrite <-fmap_app. apply fmap_submseteq.
    apply NoDup_submseteq.
    + apply (NoDup_fmap_1 id). rewrite fmap_app.
      by rewrite (comm (++)).
    + intros k [Hk|Hk]%elem_of_app; apply elem_of_keys;
        apply elem_of_keys in Hk.
      * unfold rhs in *. rewrite Hm. by apply Hgrow.
      * by apply Hsub.
  - induction rest as [|r rest IH]; [done|].
    rewrite !bind_cons. apply submseteq_app; [|done].
    unfold rhs_ids. apply fmap_submseteq, keys_submseteq.
    intros k Hk. unfold rhs in *. rewrite Hm. by apply Hgrow.
Qed.

Lemma update_duplicate_raises self submodels σ :
  submodels ≠ [] →
  ¬ NoDup (rhs_ids σ self ++ submodels ≫= rhs_ids σ) →
  ∃ σ', update self submodels σ
        = (σ', Raise (AssertionError (ModelError "duplicate variables"))).
Proof.
  unfold update. revert σ.
  induction submodels as [|s rest IH]; intros σ Hne Hdup; [done|].
  cbn [for_each]. unfold bind. rewrite update_one_eq.
  destruct (all_distinct _) eqn:Hcheck; [|eauto].
  apply all_distinct_NoDup in Hcheck.
  destruct rest as [|r rest].
  - destruct Hdup. rewrite bind_cons.
    change ([] ≫= rhs_ids σ) with (@nil Z).
    by rewrite (right_id [] (++)), (comm (++)).
  - apply IH; [done|]. intros Hnd. apply Hdup.
    eapply submseteq_NoDup; [|exact Hnd]. by apply update_merge_ids.
Qed.

(** When [update] raises, it is at the first submodel whose keys and the
    host's current keys have a duplicated [id]; the submodels before it
    have been merged, that submodel and those after it have not. *)
Lemma update_raise_inv self submodels σ σ' e :
  update self submodels σ = (σ', Raise e) →
  ∃ merged failing rest,
    submodels = merged ++ failing :: rest
    ∧ update self merged σ = (σ', Return tt)
    ∧ ¬ NoDup (rhs_ids σ' failing ++ rhs_ids σ' self)
    ∧ e = AssertionError (ModelError "duplicate variables").
Proof.
  unfold update. revert σ.
  induction submodels as [|s rest IH]; intros σ; cbn [for_each]; [done|].
  unfold bind. rewrite update_one_eq.
  destruct (all_distinct _) eqn:Hcheck.
  - intros (merged & failing & rest' & -> & Hrun & Hdup & ->)%IH.
    exists (s :: merged), failing, rest'. split_and!; try done.
    cbn [for_each]. unfold bind. by rewrite update_one_eq, Hcheck.
  - intros [= <- <-]. exists [], s, rest. split_and!; try done.
    rewrite <-all_distinct_NoDup. by rewrite Hcheck.
Qed.

(** C1, as the code has it.  When the [id]s of the [rhs] keys of the host
    and of the submodels passed to [update], taken together, have a
    duplicate, and at least one submodel is passed, [update] raises
    [AssertionError] with the [ModelError] of message "duplicate variables"
    as argument.  It raises at the first submodel whose keys, with the
    current keys of the host, have a duplicated [id]: the submodels before
    that one have been merged into the host, and the store is the one
    their merge leaves.  When that submodel is the first, the store is as
    before the call. *)
Theorem update_duplicate_variables (self : addr) (submodels : list addr)
    (σ : heap) :
  submodels ≠ [] →
  ¬ NoDup (rhs_ids σ self ++ submodels ≫= rhs_ids σ) →
  ∃ merged failing rest σ',
    submodels = merged ++ failing :: rest
    ∧ update self merged σ = (σ', Return tt)
    ∧ ¬ NoDup (rhs_ids σ' failing ++ rhs_ids σ' self)
    ∧ update self submodels σ
      = (σ', Raise (AssertionError (ModelError "duplicate variables")))
    ∧ (merged = [] → σ' = σ).
Proof.
  intros Hne Hdup.
  destruct (update_duplicate_raises self submodels σ Hne Hdup) as [σ' Hrun].
  destruct (update_raise_inv _ _ _ _ _ Hrun)
    as (merged & failing & rest & Hsplit & Hmerged & Hfail & _).
  exists merged, failing, rest, σ'. split_and!; try done.
  intros ->. by injection Hmerged.
Qed.

(** *** Merging submodels that share nothing with the host *)






Lemma all_exprb_all_expr {K} `{Countable K} (d : gmap K eqn_value) :
  all_exprb d = true → all_expr d.
Proof.
  unfold all_exprb. rewrite forallb_forall. intros Hall k x Hk.
  specialize (Hall (k, x)). simpl in Hall. destruct x as [n|e]; [|eauto].
  discriminate Hall. by apply list_elem_of_In, elem_of_map_to_list.
Qed.

Lemma AssertionError_not_ModelError (arg : exn) :
  ¬ is_ModelError (AssertionError arg).
Proof. by intros [msg ?]. Qed.

End Proofs.

(** * Further properties of the code *)

Section More.
Context `{ET : ExpressionTree}.

(** ** The setters and [__getitem__] *)

Lemma registry_with_with r m a b :
  registry_with r (registry_with r m a) b = registry_with r m b.
Proof. by destruct r. Qed.

Lemma store_set_set {A} (s : store A) a x y b :
  store_set (store_set s a x) a y b = store_set s a y b.
Proof. unfold store_set. by case_decide. Qed.

(** X1.  After a successful assignment of [rhs], [model[key]] returns,
    for a key of the assigned mapping, the [Scalar] of its value when the
    value was a bare number and the value itself when it was an
    expression; for any other key it raises [KeyError].  The lookup does
    not write the store. *)
Theorem getitem_after_rhs_setter (self dict : addr) (key : Expression)
    (σ : heap) :
  (rhs_setter self dict σ).2 = Return tt →
  let σ' := (rhs_setter self dict σ).1 in
  __getitem__ self key σ' =
    (σ', match eqn_dicts σ dict !! key with
         | Some eqn => Return (lift_value eqn)
         | None => Raise KeyError
         end).
Proof.
  destruct (registry_setter_spec Rhs self dict σ)
    as (σ1 & (Hm & _ & _ & _ & _ & Heq) & Hrun).
  simpl in Hrun. rewrite Hrun.
  destruct (I1 _); [|done]. intros _. cbn [fst snd].
  unfold __getitem__, rhs. simpl. unfold store_set at 1.
  rewrite decide_True by done. simpl.
  rewrite Heq, decide_True by done. unfold lifted. rewrite lookup_fmap.
  by destruct (eqn_dicts σ dict !! key).
Qed.

(** X2.  Assigning again the mapping a registry was just assigned
    changes nothing: the second call returns, the attributes of every
    model and the contents of every dictionary are as after the first. *)
Theorem setter_again (r : eqn_registry) (self dict : addr) (σ : heap) :
  (registry_setter r self dict σ).2 = Return tt →
  let σ' := (registry_setter r self dict σ).1 in
  let σ'' := (registry_setter r self dict σ').1 in
  (registry_setter r self dict σ').2 = Return tt
  ∧ (∀ b, models σ'' b = models σ' b)
  ∧ (∀ b, eqn_dicts σ'' b = eqn_dicts σ' b)
  ∧ side_dicts σ'' = side_dicts σ' ∧ bc_dicts σ'' = bc_dicts σ'
  ∧ var_dicts σ'' = var_dicts σ' ∧ alg_lists σ'' = alg_lists σ'.
Proof.
  destruct (registry_setter_spec r self dict σ)
    as (σ1 & (Hm & Hs & Hb & Hv & Ha & Heq) & ->).
  destruct (I1 _) eqn:HI1; [|done]. intros _. cbn [fst snd].
  set (σ' := set_model σ1 self _).
  destruct (registry_setter_spec r self dict σ')
    as (σ2 & (Hm2 & Hs2 & Hb2 & Hv2 & Ha2 & Heq2) & ->).
  assert (eqn_dicts σ' dict = lifted (eqn_dicts σ dict)) as Hd.
  { subst σ'. simpl. by rewrite Heq, decide_True. }
  rewrite Hd, lifted_idemp, HI1. cbn [fst snd].
  split_and!; try done.
  - intros b. simpl. rewrite Hm2. subst σ'. simpl.
    unfold store_set. destruct (decide (b = self)) as [->|Hne]; [|done].
    rewrite decide_True by done. by rewrite registry_with_with.
  - intros b. simpl. rewrite Heq2. case_decide as Hbd; [|done].
    subst b. by rewrite Hd, lifted_idemp.
Qed.

(** X3.  A call of one of the three setters writes one attribute of one
    model: the attributes of every other model, the other attributes of
    the model, and every boundary-condition mapping, inner mapping,
    [variables] mapping and [algebraic] list are as before, whether the
    call returns or raises. *)
Theorem setter_frame (r : eqn_registry) (self dict : addr) (σ : heap) :
  let σ' := (registry_setter r self dict σ).1 in
  (∀ b, b ≠ self → models σ' b = models σ b)
  ∧ (∀ q, q ≠ r →
       registry_attr q (models σ' self) = registry_attr q (models σ self))
  ∧ _algebraic (models σ' self) = _algebraic (models σ self)
  ∧ _boundary_conditions (models σ' self)
    = _boundary_conditions (models σ self)
  ∧ _variables (models σ' self) = _variables (models σ self)
  ∧ _concatenated_rhs (models σ' self) = _concatenated_rhs (models σ self)
  ∧ _concatenated_initial_conditions (models σ' self)
    = _concatenated_initial_conditions (models σ self)
  ∧ side_dicts σ' = side_dicts σ ∧ bc_dicts σ' = bc_dicts σ
  ∧ var_dicts σ' = var_dicts σ ∧ alg_lists σ' = alg_lists σ.
Proof.
  destruct (registry_setter_spec r self dict σ)
    as (σ1 & (Hm & Hs & Hb & Hv & Ha & Heq) & ->).
  destruct (I1 _); cbn [fst snd]; simpl; rewrite ?Hm;
    unfold store_set; rewrite ?decide_True by done.
  - split_and!; try done.
    + intros b Hb'. by rewrite decide_False.
    + intros q Hq. by destruct r, q.
    + by destruct r.
    + by destruct r.
    + by destruct r.
    + by destruct r.
    + by destruct r.
  - by split_and!.
Qed.

Lemma consistent_lifted (d : gmap Expression eqn_value) :
  consistent d → lifted d = d.
Proof. intros [Hd _]. by apply lifted_of_all_expr. Qed.

(** X4.  A successful call of one of the three setters leaves in the
    registry a consistent mapping: expressions only, and no pair that
    violates I1.  No call, successful or not, makes a consistent equation
    mapping of the store inconsistent. *)
Theorem setter_consistent (r : eqn_registry) (self dict : addr) (σ : heap) :
  let σ' := (registry_setter r self dict σ).1 in
  ((registry_setter r self dict σ).2 = Return tt →
     consistent (eqn_dicts σ' (registry_attr r (models σ' self))))
  ∧ (∀ b, consistent (eqn_dicts σ b) → consistent (eqn_dicts σ' b)).
Proof.
  destruct (registry_setter_spec r self dict σ)
    as (σ1 & (Hm & Hs & Hb & Hv & Ha & Heq) & ->).
  assert (∀ b, consistent (eqn_dicts σ b) → consistent (eqn_dicts σ1 b)) as Hk.
  { intros b Hb'. rewrite Heq. case_decide; [|done]. subst.
    by rewrite consistent_lifted. }
  destruct (I1 _) eqn:HI1; cbn [fst snd]; simpl; split; try done.
  intros _. unfold store_set. rewrite decide_True by done.
  rewrite registry_attr_with, Heq, decide_True by done. split.
  - apply lifted_all_expr.
  - by apply I1_true_iff.
Qed.

(** ** The setter of [boundary_conditions] *)

Lemma bc_referenced_dec (d : gmap Expression addr) (b : addr) :
  (∃ var, d !! var = Some b) ∨ (∀ var, d !! var ≠ Some b).
Proof.
  destruct (decide (b ∈ (map_to_list d).*2)) as [Hin|Hnin].
  - left. apply list_elem_of_fmap in Hin as ([var b'] & -> & Hin).
    exists var. by apply elem_of_map_to_list.
  - right. intros var Hvar. apply Hnin. apply list_elem_of_fmap.
    exists (var, b). split; [done|]. by apply elem_of_map_to_list.
Qed.

(** X5.  The setter of [boundary_conditions] checks no domain and always
    returns.  It keeps the mapping object it is given, does not write
    that outer mapping, and rewrites in place the inner mappings it refers
    to: afterwards each of them holds expressions only, under the same
    sides as before.  Inner mappings it does not refer to, and all other
    objects, are as before.  A second call with the same object changes
    nothing. *)
Theorem boundary_conditions_setter_effect (self bcs : addr) (σ : heap) :
  let σ' := (boundary_conditions_setter self bcs σ).1 in
  let σ'' := (boundary_conditions_setter self bcs σ').1 in
  (boundary_conditions_setter self bcs σ).2 = Return tt
  ∧ _boundary_conditions (models σ' self) = bcs
  ∧ bc_dicts σ' = bc_dicts σ
  ∧ (∀ var b, bc_dicts σ bcs !! var = Some b →
       all_expr (side_dicts σ' b)
       ∧ ∀ side, is_Some (side_dicts σ' b !! side)
                 ↔ is_Some (side_dicts σ b !! side))
  ∧ (∀ b, (∀ var, bc_dicts σ bcs !! var ≠ Some b) →
       side_dicts σ' b = side_dicts σ b)
  ∧ eqn_dicts σ' = eqn_dicts σ ∧ var_dicts σ' = var_dicts σ
  ∧ alg_lists σ' = alg_lists σ
  ∧ (∀ b, b ≠ self → models σ' b = models σ b)
  ∧ (∀ b, side_dicts σ'' b = side_dicts σ' b)
  ∧ (∀ b, models σ'' b = models σ' b).
Proof.
  destruct (boundary_conditions_setter_spec self bcs σ)
    as (σ1 & Hrun & Hm & He & Hb & Hv & Ha & Hin & Hout).
  cbv zeta. rewrite Hrun. cbn [fst snd].
  set (σ' := set_model σ1 self _).
  destruct (boundary_conditions_setter_spec self bcs σ')
    as (σ2 & Hrun2 & Hm2 & He2 & Hb2 & Hv2 & Ha2 & Hin2 & Hout2).
  rewrite Hrun2. cbn [fst snd].
  assert (bc_dicts σ' = bc_dicts σ) as Hb' by done.
  assert (side_dicts σ' = side_dicts σ1) as Hs' by done.
  split_and!; try done.
  - simpl. unfold store_set. by rewrite decide_True.
  - intros var b Hvar. subst σ'. cbn [side_dicts set_model].
    rewrite (Hin var b Hvar). split.
    + apply lifted_all_expr.
    + intros side. unfold lifted. rewrite lookup_fmap.
      apply fmap_is_Some.
  - intros b Hne. simpl. unfold store_set. rewrite decide_False by done.
    by rewrite Hm.
  - intros b. simpl.
    destruct (bc_referenced_dec (bc_dicts σ bcs) b) as [[var Hvar]|Hno].
    + rewrite (Hin2 var b) by (by rewrite Hb').
      subst σ'. cbn [side_dicts set_model].
      rewrite (Hin var b Hvar). apply lifted_idemp.
    + apply Hout2. by rewrite Hb'.
  - intros b. simpl. rewrite Hm2. subst σ'. simpl. unfold store_set.
    destruct (decide (b = self)) as [->|Hne]; [|done].
    by rewrite decide_True.
Qed.

(** ** [update] on a host that shares no mapping with the submodels *)

Ltac decide_refs :=
  repeat match goal with
  | |- context [decide (?a = ?a)] =>
      rewrite (decide_True (P := a = a)) by done
  | H : ?a ≠ ?b |- context [decide (?a = ?b)] =>
      rewrite (decide_False (P := a = b)) by done
  | H : ?a ≠ ?b |- context [decide (?b = ?a)] =>
      rewrite (decide_False (P := b = a)) by done
  end.













(** ** [update] on any host *)

Lemma store_set_update_grows {K V} `{Countable K} (s : store (gmap K V))
    (a : addr) (other : gmap K V) (b : addr) (k : K) :
  is_Some (s b !! k) →
  is_Some (store_set s a (dict_update (s a) other) b !! k).
Proof.
  intros Hk. unfold store_set. case_decide as Hb; [|done].
  subst. apply lookup_dict_update_is_Some. by right.
Qed.

Lemma update_merge_grows self s σ :
  let σ' := update_merge self s σ in
  (∀ b k, is_Some (eqn_dicts σ b !! k) → is_Some (eqn_dicts σ' b !! k))
  ∧ (∀ b k, is_Some (bc_dicts σ b !! k) → is_Some (bc_dicts σ' b !! k))
  ∧ (∀ b k, is_Some (var_dicts σ b !! k) → is_Some (var_dicts σ' b !! k)).
Proof.
  unfold update_merge, rhs, initial_conditions, boundary_conditions,
    variables; simpl. split_and!; intros b k Hk.
  - by apply store_set_update_grows, store_set_update_grows.
  - by apply store_set_update_grows.
  - by apply store_set_update_grows.
Qed.

(** X11.  [update] never removes a key: whether it returns or raises,
    every key of every equation mapping, boundary-condition mapping and
    [variables] mapping of the store is still a key of it afterwards. *)
Theorem update_never_removes (self : addr) (submodels : list addr) (σ : heap) :
  let σ' := (update self submodels σ).1 in
  (∀ b k, is_Some (eqn_dicts σ b !! k) → is_Some (eqn_dicts σ' b !! k))
  ∧ (∀ b k, is_Some (bc_dicts σ b !! k) → is_Some (bc_dicts σ' b !! k))
  ∧ (∀ b k, is_Some (var_dicts σ b !! k) → is_Some (var_dicts σ' b !! k)).
Proof.
  unfold update. revert σ.
  induction submodels as [|s rest IH]; intros σ; cbn [for_each].
  { by split_and!. }
  unfold bind. rewrite update_one_eq.
  destruct (all_distinct _); [|by split_and!].
  destruct (update_merge_grows self s σ) as (He & Hb & Hv).
  destruct (IH (update_merge self s σ)) as (He' & Hb' & Hv').
  cbv zeta in *. split_and!; intros b k Hk.
  - by apply He', He.
  - by apply Hb', Hb.
  - by apply Hv', Hv.
Qed.

Lemma rhs_ids_nonempty σ s : rhs σ s ≠ ∅ → ∃ x, x ∈ rhs_ids σ s.
Proof.
  intros (k & v & Hk)%map_choose. exists (id k).
  apply list_elem_of_fmap_2, elem_of_keys. eauto.
Qed.

(** X12.  A model that has equations cannot be merged into itself, and
    a submodel that has equations cannot be passed twice: [update] raises
    the [AssertionError] of duplicate variables. *)
Theorem update_same_model_twice (self s : addr) (submodels : list addr)
    (σ : heap) :
  rhs σ s ≠ ∅ →
  (s = self ∧ s ∈ submodels)
  ∨ (∃ l1 l2 l3, submodels = l1 ++ s :: l2 ++ s :: l3) →
  (update self submodels σ).2
  = Raise (AssertionError (ModelError "duplicate variables")).
Proof.
  intros [x Hx]%rhs_ids_nonempty Hcase.
  assert (submodels ≠ []) as Hne.
  { destruct Hcase as [[_ Hin]|(l1 & l2 & l3 & ->)].
    - intros ->. by apply elem_of_nil in Hin.
    - by destruct l1. }
  assert (¬ NoDup (rhs_ids σ self ++ submodels ≫= rhs_ids σ)) as Hdup.
  { destruct Hcase as [[-> Hin]|(l1 & l2 & l3 & ->)].
    - intros (_ & Hdisj & _)%NoDup_app. apply (Hdisj x Hx).
      apply list_elem_of_bind. eauto.
    - rewrite bind_app, bind_cons, bind_app, bind_cons.
      intros (_ & _ & (_ & _ & (_ & Hdisj & _)%NoDup_app)%NoDup_app)%NoDup_app.
      apply (Hdisj x Hx). apply elem_of_app. right.
      apply elem_of_app. by left. }
  destruct (update_duplicate_raises self submodels σ Hne Hdup) as [σ' Hrun].
  by rewrite Hrun.
Qed.

(** X13.  Passing submodels in one call of [update] is the same as
    passing them in two successive calls: the second call runs on the
    store the first leaves, if the first returns, and not at all if it
    raises. *)
Theorem update_app (self : addr) (first second : list addr) (σ : heap) :
  update self (first ++ second) σ =
  match update self first σ with
  | (σ', Return _) => update self second σ'
  | (σ', Raise e) => (σ', Raise e)
  end.
Proof. apply for_each_app. Qed.





(** ** [check_well_posedness] *)

Lemma in_some_bc_key_mono (var : Expression) (l1 l2 : list Expression) :
  (∀ key, key ∈ l1 → key ∈ l2) →
  in_some_bc_key var l1 = true → in_some_bc_key var l2 = true.
Proof.
  unfold in_some_bc_key. rewrite !existsb_exists.
  intros Hincl (key & Hkey%list_elem_of_In & Hsym). exists key.
  split; [|done]. by apply list_elem_of_In, Hincl.
Qed.

Lemma in_some_bc_key_ext (var : Expression) (l1 l2 : list Expression) :
  (∀ key, key ∈ l1 ↔ key ∈ l2) →
  in_some_bc_key var l1 = in_some_bc_key var l2.
Proof.
  intros Hiff.
  destruct (in_some_bc_key var l1) eqn:H1.
  - symmetry. eapply in_some_bc_key_mono; [|exact H1]. intros k. apply Hiff.
  - destruct (in_some_bc_key var l2) eqn:H2; [|done].
    rewrite <-H1. eapply in_some_bc_key_mono; [|exact H2]. intros k. apply Hiff.
Qed.

Lemma check_boundary_condition_return_iff self v x σ :
  (check_boundary_condition self (v, x) σ).2 = Return tt ↔
  ∃ eqn, x = Expr eqn ∧ has_boundary_condition σ self v eqn = true.
Proof.
  destruct x as [n|eqn].
  - split; [done|]. by intros (eqn & ? & _).
  - rewrite check_boundary_condition_eq. unfold has_boundary_condition. simpl.
    split.
    + intros Hret. exists eqn. split; [done|].
      destruct (has_spatial_derivatives eqn); [|done].
      by destruct (in_some_bc_key _ _).
    + intros (eqn' & [= <-] & Hbc).
      destruct (has_spatial_derivatives eqn); [|done].
      simpl in Hbc. by rewrite Hbc.
Qed.

(** When the check returns. *)
Lemma check_well_posedness_returns self σ :
  (check_well_posedness self σ).2 = Return tt ↔
  (∀ v, is_Some (rhs σ self !! v) →
        is_Some (initial_conditions σ self !! v))
  ∧ (∀ v x, rhs σ self !! v = Some x →
       ∃ eqn, x = Expr eqn ∧ has_boundary_condition σ self v eqn = true).
Proof.
  rewrite check_well_posedness_passes.
  assert ((check_initial_conditions self σ).2 = Return tt ↔
          ∀ v, is_Some (rhs σ self !! v) →
               is_Some (initial_conditions σ self !! v)) as H1.
  { unfold check_initial_conditions, bind, gets.
    rewrite for_each_return_iff by apply check_initial_condition_read_only.
    split.
    - intros Hall v Hv. by apply check_initial_condition_return_iff, Hall,
        elem_of_keys.
    - intros Hall v Hv%elem_of_keys.
      by apply check_initial_condition_return_iff, Hall. }
  assert ((check_boundary_conditions self σ).2 = Return tt ↔
          ∀ v x, rhs σ self !! v = Some x →
            ∃ eqn, x = Expr eqn ∧ has_boundary_condition σ self v eqn = true)
    as H2.
  { unfold check_boundary_conditions, bind, gets.
    rewrite for_each_return_iff by apply check_boundary_condition_read_only.
    split.
    - intros Hall v x Hv. apply check_boundary_condition_return_iff, Hall.
      by apply elem_of_map_to_list.
    - intros Hall [v x] Hv%elem_of_map_to_list.
      by apply check_boundary_condition_return_iff, Hall. }
  destruct (outcome_unit_cases (check_initial_conditions self σ).2)
    as [Hret|[e He]].
  - rewrite Hret. cbn [snd]. rewrite H2. split; [|by intros [_ ?]].
    intros ?. split; [by apply H1|done].
  - rewrite He. cbn [snd]. split; [done|]. intros [Hic _].
    apply H1 in Hic. by rewrite He in Hic.
Qed.

Lemma in_some_bc_key_true_iff (var : Expression) (bc_keys : list Expression) :
  in_some_bc_key var bc_keys = true ↔
  ∃ key symbol, key ∈ bc_keys ∧ symbol ∈ pre_order key ∧ id var = id symbol.
Proof.
  unfold in_some_bc_key. rewrite existsb_exists. split.
  - intros (key & Hkey%list_elem_of_In & (symbol & Hsym%list_elem_of_In
                 & Hid%bool_decide_eq_true)%existsb_exists). eauto.
  - intros (key & symbol & Hkey & Hsym & Hid). exists key.
    split; [by apply list_elem_of_In|]. apply existsb_exists. exists symbol.
    split; [by apply list_elem_of_In|]. by apply bool_decide_eq_true.
Qed.

Lemma has_boundary_condition_true_iff σ self (v eqn : Expression) :
  has_boundary_condition σ self v eqn = true ↔
  (has_spatial_derivatives eqn = true →
   ∃ key symbol, is_Some (boundary_conditions σ self !! key)
     ∧ symbol ∈ pre_order key ∧ id v = id symbol).
Proof.
  unfold has_boundary_condition.
  rewrite orb_true_iff, negb_true_iff, in_some_bc_key_true_iff.
  setoid_rewrite elem_of_keys.
  destruct (has_spatial_derivatives eqn); split; try done.
  - intros [?|?]; [done|]. eauto.
  - intros H. right. by apply H.
  - by left.
Qed.

(** X15.  [check_well_posedness] returns exactly when every key of
    [rhs] is a key of [initial_conditions] and every value of [rhs] is an
    expression that has no spatial derivatives or whose variable occurs,
    by [id], in the traversal of some key of [boundary_conditions].  In
    particular it never returns when [rhs] holds a bare number. *)
Theorem check_well_posedness_returns_iff (self : addr) (σ : heap) :
  (check_well_posedness self σ).2 = Return tt ↔
  (∀ v, is_Some (rhs σ self !! v) →
        is_Some (initial_conditions σ self !! v))
  ∧ (∀ v x, rhs σ self !! v = Some x →
       ∃ eqn, x = Expr eqn
         ∧ (has_spatial_derivatives eqn = true →
            ∃ key symbol, is_Some (boundary_conditions σ self !! key)
              ∧ symbol ∈ pre_order key ∧ id v = id symbol)).
Proof.
  rewrite check_well_posedness_returns.
  by setoid_rewrite has_boundary_condition_true_iff.
Qed.


(** X17.  The check only reads: it leaves the store as it is, so that
    running it again gives the same outcome. *)
Theorem check_well_posedness_rerun (self : addr) (σ : heap) :
  (check_well_posedness self σ).1 = σ
  ∧ check_well_posedness self (check_well_posedness self σ).1
    = check_well_posedness self σ.
Proof.
  assert ((check_well_posedness self σ).1 = σ) as H.
  { rewrite check_well_posedness_passes.
    by destruct (check_initial_conditions self σ).2. }
  split; [done|]. by rewrite H.
Qed.

Lemma for_each_outcome_ext {A} (l : list A) (body : A → M unit) σ τ :
  (∀ x σ, (body x σ).1 = σ) →
  (∀ x, x ∈ l → (body x τ).2 = (body x σ).2) →
  (for_each l body τ).2 = (for_each l body σ).2.
Proof.
  intros Hro. induction l as [|x l IH]; intros Hext; cbn [for_each]; [done|].
  unfold bind. pose proof (Hro x σ) as H1. pose proof (Hro x τ) as H2.
  pose proof (Hext x (list_elem_of_here _ _)) as H3.
  destruct (body x σ) as [σ1 o1], (body x τ) as [τ1 o2]. simpl in *. subst.
  destruct o1; [|done]. apply IH. intros y Hy. apply Hext. by right.
Qed.

Lemma check_well_posedness_ext (self : addr) (σ τ : heap) :
  rhs τ self = rhs σ self →
  (∀ k, is_Some (initial_conditions τ self !! k)
        ↔ is_Some (initial_conditions σ self !! k)) →
  (∀ k, is_Some (boundary_conditions τ self !! k)
        ↔ is_Some (boundary_conditions σ self !! k)) →
  (check_well_posedness self τ).2 = (check_well_posedness self σ).2.
Proof.
  intros Hrhs Hic Hbc. rewrite !check_well_posedness_passes.
  assert ((check_initial_conditions self τ).2
          = (check_initial_conditions self σ).2) as ->.
  { unfold check_initial_conditions, bind, gets. rewrite Hrhs.
    apply for_each_outcome_ext; [apply check_initial_condition_read_only|].
    intros v _. rewrite !check_initial_condition_eq. cbn [snd].
    rewrite (bool_decide_ext (v ∈ keys (initial_conditions τ self))
               (v ∈ keys (initial_conditions σ self))); [done|].
    by rewrite !elem_of_keys. }
  assert ((check_boundary_conditions self τ).2
          = (check_boundary_conditions self σ).2) as ->.
  { unfold check_boundary_conditions, bind, gets. rewrite Hrhs.
    apply for_each_outcome_ext; [apply check_boundary_condition_read_only|].
    intros [v [n|e]] _; [done|]. rewrite !check_boundary_condition_eq.
    cbn [snd].
    rewrite (in_some_bc_key_ext v (keys (boundary_conditions τ self))
               (keys (boundary_conditions σ self))); [done|].
    intros key. by rewrite !elem_of_keys. }
  by destruct (check_initial_conditions self σ).2.
Qed.



(** ** The setters of [algebraic] and [variables] *)

Lemma with_algebraic_attrs (m : BaseModel) (a : addr) :
  _rhs (with_algebraic m a) = _rhs m
  ∧ _initial_conditions (with_algebraic m a) = _initial_conditions m
  ∧ _boundary_conditions (with_algebraic m a) = _boundary_conditions m.
Proof. done. Qed.

Lemma with_variables_attrs (m : BaseModel) (a : addr) :
  _rhs (with_variables m a) = _rhs m
  ∧ _initial_conditions (with_variables m a) = _initial_conditions m
  ∧ _boundary_conditions (with_variables m a) = _boundary_conditions m.
Proof. done. Qed.

(** X20.  Assigning [algebraic] or [variables] never raises and writes
    no collection: the attribute becomes the reference given, so that the
    model reads the caller's object, and the outcome of
    [check_well_posedness] on any model is the same before and after. *)
Theorem plain_setters (m self a : addr) (σ : heap) :
  let σa := (algebraic_setter m a σ).1 in
  let σv := (variables_setter m a σ).1 in
  (algebraic_setter m a σ).2 = Return tt
  ∧ (variables_setter m a σ).2 = Return tt
  ∧ algebraic σa m = alg_lists σ a
  ∧ variables σv m = var_dicts σ a
  ∧ alg_lists σa = alg_lists σ ∧ var_dicts σv = var_dicts σ
  ∧ (check_well_posedness self σa).2 = (check_well_posedness self σ).2
  ∧ (check_well_posedness self σv).2 = (check_well_posedness self σ).2.
Proof.
  cbv zeta. unfold algebraic_setter, variables_setter, modify. cbn [fst snd].
  assert (∀ f : BaseModel → addr → BaseModel,
            (∀ x, _rhs (f x a) = _rhs x
                  ∧ _initial_conditions (f x a) = _initial_conditions x
                  ∧ _boundary_conditions (f x a) = _boundary_conditions x) →
            (check_well_posedness self
               (set_model σ m (f (models σ m) a))).2
            = (check_well_posedness self σ).2) as Hcheck.
  { intros f Hf.
    assert (rhs (set_model σ m (f (models σ m) a)) self = rhs σ self
            ∧ initial_conditions (set_model σ m (f (models σ m) a)) self
              = initial_conditions σ self
            ∧ boundary_conditions (set_model σ m (f (models σ m) a)) self
              = boundary_conditions σ self) as (Hr & Hi & Hb).
    { unfold rhs, initial_conditions, boundary_conditions. simpl.
      unfold store_set. destruct (decide (self = m)) as [->|Hne]; [|done].
      destruct (Hf (models σ m)) as (-> & -> & ->). done. }
    apply check_well_posedness_ext; [done|intros k..].
    - by rewrite Hi.
    - by rewrite Hb. }
  split_and!; try done.
  - unfold algebraic. simpl. unfold store_set. by rewrite decide_True.
  - unfold variables. simpl. unfold store_set. by rewrite decide_True.
  - apply (Hcheck with_algebraic). intros x. apply with_algebraic_attrs.
  - apply (Hcheck with_variables). intros x. apply with_variables_attrs.
Qed.

(** ** [update] and [check_well_posedness] *)



End More.

(** * The properties on the scenarios *)

Section Scenarios.
Import Examples.

(** ** [update] *)

(** C1 does not hold as stated.  Submodel A and model 4 both have an
    equation for [c].  [update] merges A into the host and then fails on
    model 4: the exception is an [AssertionError], not a [ModelError], and
    the [rhs] and the [initial_conditions] of the host, which were empty,
    hold the entries of A. *)
Lemma update_partial_merge_counterexample :
  ¬ NoDup (rhs_ids σ_built 1 ++ [2; 4] ≫= rhs_ids σ_built)
  ∧ (update 1 [2; 4] σ_built).2
    = Raise (AssertionError (ModelError "duplicate variables"))
  ∧ ¬ is_ModelError (AssertionError (ModelError "duplicate variables"))
  ∧ rhs σ_built 1 !! c = None
  ∧ rhs (update 1 [2; 4] σ_built).1 1 !! c = Some (Expr div_grad_c)
  ∧ initial_conditions σ_built 1 !! c = None
  ∧ initial_conditions (update 1 [2; 4] σ_built).1 1 !! c
    = Some (Expr (Scalar 1%Z)).
Proof.
  split_and!.
  - intros H%all_distinct_NoDup. vm_compute in H. discriminate.
  - vm_compute; reflexivity.
  - apply AssertionError_not_ModelError.
  - vm_compute; reflexivity.
  - vm_compute; reflexivity.
  - vm_compute; reflexivity.
  - vm_compute; reflexivity.
Qed.

Lemma update_duplicate_variables_witness :
  ∃ merged failing rest σ',
    [2; 4] = merged ++ failing :: rest
    ∧ update 1 merged σ_built = (σ', Return tt)
    ∧ ¬ NoDup (rhs_ids σ' failing ++ rhs_ids σ' 1)
    ∧ update 1 [2; 4] σ_built
      = (σ', Raise (AssertionError (ModelError "duplicate variables")))
    ∧ (merged = [] → σ' = σ_built).
Proof.
  assert ([2; 4] ≠ @nil addr) as H1 by discriminate.
  assert (¬ NoDup (rhs_ids σ_built 1 ++ [2; 4] ≫= rhs_ids σ_built)) as H2.
  { intros H%all_distinct_NoDup. vm_compute in H. discriminate. }
  exact (update_duplicate_variables 1 [2; 4] σ_built H1 H2).
Defined.





(** ** [check_well_posedness] *)

(** C2 does not hold as stated.  The equation of [c] in A has spatial
    derivatives and A has no boundary condition: the check fails, and
    what it raises is an [AssertionError], not a [ModelError]. *)
Lemma missing_boundary_condition_counterexample :
  rhs σ_built 2 !! c = Some (Expr div_grad_c)
  ∧ lacks_boundary_condition σ_built 2 c div_grad_c
  ∧ (check_well_posedness 2 σ_built).2
    = Raise (AssertionError
               (ModelError (no_boundary_condition_msg c div_grad_c)))
  ∧ ¬ is_ModelError
        (AssertionError (ModelError (no_boundary_condition_msg c div_grad_c))).
Proof.
  split_and!.
  - vm_compute; reflexivity.
  - split; [vm_compute; reflexivity|].
    intros key symbol Hkey.
    assert (boundary_conditions σ_built 2 = ∅) as Hbc
      by (vm_compute; reflexivity).
    rewrite Hbc, lookup_empty in Hkey. clear Hbc.
    destruct Hkey as [x Hx]. discriminate Hx.
  - vm_compute; reflexivity.
  - apply AssertionError_not_ModelError.
Qed.

Lemma missing_boundary_condition_witness :
  ((∃ e, (check_well_posedness 2 σ_built).2 = Raise e) ↔
     ∃ v eqn, rhs σ_built 2 !! v = Some (Expr eqn)
              ∧ lacks_boundary_condition σ_built 2 v eqn)
  ∧ ((∃ e, (check_well_posedness 2 σ_bcs).2 = Raise e) ↔
       ∃ v eqn, rhs σ_bcs 2 !! v = Some (Expr eqn)
                ∧ lacks_boundary_condition σ_bcs 2 v eqn).
Proof.
  assert (all_expr (rhs σ_built 2)) as H1
    by (apply all_exprb_all_expr; vm_compute; reflexivity).
  assert ((check_initial_conditions 2 σ_built).2 = Return tt) as H2
    by (vm_compute; reflexivity).
  assert (all_expr (rhs σ_bcs 2)) as H3
    by (apply all_exprb_all_expr; vm_compute; reflexivity).
  assert ((check_initial_conditions 2 σ_bcs).2 = Return tt) as H4
    by (vm_compute; reflexivity).
  split.
  - exact (proj1 (missing_boundary_condition 2 σ_built H1 H2)).
  - exact (proj1 (missing_boundary_condition 2 σ_bcs H3 H4)).
Defined.



Lemma check_well_posedness_empty_rhs_witness :
  algebraic σ_built 5 = [div_grad_c]
  ∧ initial_conditions σ_built 5 !! c = Some (Expr (Scalar 1%Z))
  ∧ check_well_posedness 5 σ_built = (σ_built, Return tt).
Proof.
  assert (rhs σ_built 5 = ∅) as H1 by (vm_compute; reflexivity).
  split_and!; [vm_compute; reflexivity..|].
  exact (check_well_posedness_empty_rhs 5 σ_built H1).
Defined.

(** ** The setters *)

Lemma setter_DomainError_iff_witness :
  I1_violated (lifted (eqn_dicts σ_built 104)) ↔
  (rhs_setter 2 104 σ_built).2
  = Raise (DomainError "variable and equation in rhs must have the same domain").
Proof. exact (proj1 (setter_DomainError_iff Rhs 2 104 σ_built)). Defined.

Lemma failed_setter_leaves_registry_witness :
  (rhs_setter 2 104 σ_built).2
  = Raise (DomainError "variable and equation in rhs must have the same domain")
  ∧ rhs (rhs_setter 2 104 σ_built).1 2 = rhs σ_built 2.
Proof.
  assert (registries_typed σ_built 2) as H1.
  { intros r. apply all_exprb_all_expr. destruct r; vm_compute; reflexivity. }
  assert (eqn_dicts σ_built 104 !! T = Some (Expr j_sep)) as H2
    by (vm_compute; reflexivity).
  assert (domain T ≠ domain j_sep) as H3 by (vm_compute; discriminate).
  assert (domain j_sep ≠ []) as H4 by (vm_compute; discriminate).
  destruct (failed_setter_leaves_registry Rhs 2 104 σ_built T j_sep
              H1 H2 H3 H4) as (Hraise & _ & Hrhs & _).
  split; [exact Hraise|exact Hrhs].
Defined.



End Scenarios.

(** * The further properties on the scenarios *)

Section MoreScenarios.
Import Examples.



Lemma getitem_after_rhs_setter_witness :
  __getitem__ 2 c (rhs_setter 2 100 σ0).1
  = ((rhs_setter 2 100 σ0).1,
     match eqn_dicts σ0 100 !! c with
     | Some eqn => Return (lift_value eqn)
     | None => Raise KeyError
     end).
Proof.
  assert ((rhs_setter 2 100 σ0).2 = Return tt) as H1
    by (vm_compute; reflexivity).
  exact (getitem_after_rhs_setter 2 100 c σ0 H1).
Defined.

Lemma setter_again_witness :
  (registry_setter InitialConditions 2 101
     (registry_setter InitialConditions 2 101 σ0).1).2 = Return tt.
Proof.
  assert ((registry_setter InitialConditions 2 101 σ0).2 = Return tt) as H1
    by (vm_compute; reflexivity).
  exact (proj1 (setter_again InitialConditions 2 101 σ0 H1)).
Defined.

Lemma setter_frame_witness :
  side_dicts (registry_setter Rhs 2 104 σ0).1 = side_dicts σ0.
Proof.
  destruct (setter_frame Rhs 2 104 σ0) as (_&_&_&_&_&_&_& H &_).
  exact H.
Defined.

Lemma setter_consistent_witness :
  consistent
    (eqn_dicts (registry_setter InitialConditions 2 101 σ0).1
       (registry_attr InitialConditions
          (models (registry_setter InitialConditions 2 101 σ0).1 2))).
Proof.
  assert ((registry_setter InitialConditions 2 101 σ0).2 = Return tt) as H1
    by (vm_compute; reflexivity).
  exact (proj1 (setter_consistent InitialConditions 2 101 σ0) H1).
Defined.

Lemma boundary_conditions_setter_effect_witness :
  (boundary_conditions_setter 2 300 σ0).2 = Return tt
  ∧ _boundary_conditions (models (boundary_conditions_setter 2 300 σ0).1 2)
    = 300.
Proof.
  destruct (boundary_conditions_setter_effect 2 300 σ0) as (H1 & H2 & _).
  split; [exact H1|exact H2].
Defined.






Lemma update_never_removes_witness :
  is_Some (eqn_dicts (update 1 [2; 4] σ_built).1 100 !! c).
Proof.
  assert (is_Some (eqn_dicts σ_built 100 !! c)) as H1.
  { exists (@Expr symbol_tree div_grad_c). vm_compute; reflexivity. }
  exact (proj1 (update_never_removes 1 [2; 4] σ_built) 100 c H1).
Defined.

Lemma update_same_model_twice_witness :
  (update 2 [3; 2] σ_built).2
  = Raise (AssertionError (ModelError "duplicate variables")).
Proof.
  assert (rhs σ_built 2 ≠ ∅) as H1.
  { intros H. apply (f_equal (λ d, d !! c)) in H.
    vm_compute in H. discriminate H. }
  assert ((2 = 2 ∧ 2 ∈ [3; 2])
          ∨ (∃ l1 l2 l3 : list addr, [3; 2] = l1 ++ 2 :: l2 ++ 2 :: l3)) as H2.
  { left. split; [reflexivity|]. right. left. }
  exact (update_same_model_twice 2 2 [3; 2] σ_built H1 H2).
Defined.

Lemma update_app_witness :
  update 1 ([2] ++ [3]) σ_built =
  match update 1 [2] σ_built with
  | (σ', Return _) => update 1 [3] σ'
  | (σ', Raise e) => (σ', Raise e)
  end.
Proof. exact (update_app 1 [2] [3] σ_built). Defined.



Lemma check_well_posedness_returns_iff_witness :
  (check_well_posedness 2 σ_bcs).2 = Return tt ↔
  (∀ v, is_Some (rhs σ_bcs 2 !! v) →
        is_Some (initial_conditions σ_bcs 2 !! v))
  ∧ (∀ v x, rhs σ_bcs 2 !! v = Some x →
       ∃ eqn, x = Expr eqn
         ∧ (has_spatial_derivatives eqn = true →
            ∃ key symbol, is_Some (boundary_conditions σ_bcs 2 !! key)
              ∧ symbol ∈ pre_order key ∧ id v = id symbol)).
Proof. exact (check_well_posedness_returns_iff 2 σ_bcs). Defined.



Lemma check_well_posedness_rerun_witness :
  (check_well_posedness 1 σ_composed).1 = σ_composed.
Proof. exact (proj1 (check_well_posedness_rerun 1 σ_composed)). Defined.



Lemma plain_setters_witness :
  algebraic (algebraic_setter 5 400 σ0).1 5 = alg_lists σ0 400
  ∧ (check_well_posedness 2 (variables_setter 5 200 σ0).1).2
    = (check_well_posedness 2 σ0).2.
Proof.
  destruct (plain_setters 5 5 400 σ0) as (_ & _ & H1 & _).
  destruct (plain_setters 5 2 200 σ0) as (_ & _ & _ & _ & _ & _ & _ & H2).
  split; [exact H1|exact H2].
Defined.

End MoreScenarios.
